(** * The Notion importer of obsidian-importer: a shallow embedding

    Source: [src/formats/notion.ts] (class [NotionImporter], [isDatabaseCSV],
    [processZips]).  The importer runs in two passes over the picked zip
    files: pass 1 collects path and title information into two objects used
    as maps, pass 2 converts and writes every entry.

    Everything the importer calls but does not define (the vault, the
    progress reporter, the helpers under [./notion/]) is a field of the
    record [Host]; calls that the observer can see are recorded as [Event]s in
    the order in which they are made. *)

From Stdlib Require Import Ascii.
From stdpp Require Import gmap strings list fin_maps.

Set Default Proof Using "Type".
#[local] Set Warnings "-clear-no-such-hyp".

(** ** Strings as JavaScript uses them *)

(** [s.endsWith(suffix)] *)
Definition endsWith (s suffix : string) : bool :=
  let n := String.length s in
  let k := String.length suffix in
  (k <=? n)%nat && String.eqb (String.substring (n - k) k s) suffix.

Fixpoint containsSlash (s : string) : bool :=
  match s with
  | EmptyString => false
  | String c rest => Ascii.eqb c "/" || containsSlash rest
  end.

(** The folder of a path: the path up to its last slash, the slash
    included. *)
Fixpoint folderPart (path : string) : string :=
  match path with
  | EmptyString => EmptyString
  | String c rest =>
      if containsSlash path then String c (folderPart rest) else EmptyString
  end.

(** [segments.join('')] *)
Definition join (segments : list string) : string :=
  foldr String.append "" segments.

(** ** Results of calls that may throw *)

(** The value carried by a JavaScript exception; the importer only ever
    builds [new Error(message)] itself and passes foreign ones on. *)
Definition Error := string.

Inductive Result (A : Type) : Type :=
| Ok (a : A)
| Throw (e : Error).
Arguments Ok {A} a.
Arguments Throw {A} e.

Definition isOk {A} (r : Result A) : bool :=
  match r with Ok _ => true | Throw _ => false end.

(** ** Data *)

(** Modelled from the spec: the type [ZipEntryFile] of [../zip/util] is
    missing.  An entry of a zip file: [name], [extension] and [filepath] are
    the members that [notion.ts] reads, [read] is the outcome of
    [file.read()], and [entry_size] is the archive byte size that the
    specification compares when it resolves duplicates. *)
Record ZipEntryFile := {
  name : string;
  extension : string;
  filepath : string;
  entry_size : nat;
  read : Result (list Byte.byte);
}.

(** A picked zip file ([PickedFile] of [../filesystem]).  [readZip] is the
    outcome of opening it and listing its entries ([zipFile.readZip]
    followed by [readZipFiles]); a file that cannot be opened throws. *)
Record PickedFile := {
  zipName : string;
  readZip : Result (list ZipEntryFile);
}.

(** Modelled from the spec: the type [NotionFileInfo] is declared outside
    [notion.ts], which reads only [title].  The other fields are those the
    specification lists for a document: its id, its parent id if any, the
    path it came from, and the size of the archive entry. *)
Record NotionFileInfo := {
  title : string;
  doc_id : string;
  doc_parent : option string;
  doc_path : string;
  doc_size : nat;
}.

(** Modelled from the spec: the type [NotionAttachmentInfo] is declared
    outside [notion.ts], which reads [targetParentFolder] and
    [nameWithExtension]; the owning document and the size are the
    specification's. *)
Record NotionAttachmentInfo := {
  nameWithExtension : string;
  targetParentFolder : string;
  att_owner : option string;
  att_size : nat;
}.

(** The two objects [idsToFileInfo] and [pathsToAttachmentInfo], which the
    importer creates empty and hands to its helpers to be filled and
    rewritten in place.  They are used as maps from strings; a lookup finds
    what has been stored under the key (the properties that every JavaScript
    object inherits are left out of account). *)
Record Maps := {
  idsToFileInfo : gmap string NotionFileInfo;
  pathsToAttachmentInfo : gmap string NotionAttachmentInfo;
}.

Definition noMaps : Maps :=
  {| idsToFileInfo := ∅; pathsToAttachmentInfo := ∅ |}.

(** A front-matter property produced by the conversion. *)
Record Property := {
  prop_title : string;
  prop_content : string;
}.

Record TFolder := { folder_path : string }.
Record TFile := { file_path : string }.

(** ** Observable calls *)

Inductive Event : Type :=
| ENotice (message : string)
| EReadZip (zip : string)
| EReportSkipped (path : string)
| EReportProgress (current total : nat)
| EReportNoteSuccess (path : string)
| EReportAttachmentSuccess (path : string)
| EReportFailed (path : string) (e : Error)
| ECreateFolders (path : string)
| EReadToMarkdown (path : string)
| EVaultCreate (path : string) (data : string)
| EProcessFrontMatter (path : string) (properties : list Property)
| EFileRead (path : string)
| EWriteBinary (path : string) (data : list Byte.byte).

(** A write into the vault. *)
Definition isWrite (e : Event) : bool :=
  match e with
  | EVaultCreate _ _ | EProcessFrontMatter _ _ | EWriteBinary _ _ => true
  | _ => false
  end.

Definition isCreateFolders (e : Event) : bool :=
  match e with ECreateFolders _ => true | _ => false end.

Definition isReportFailed (e : Event) : bool :=
  match e with EReportFailed _ _ => true | _ => false end.

Definition isReportProgress (e : Event) : bool :=
  match e with EReportProgress _ _ => true | _ => false end.

(** ** Computations: vault state, events, exceptions *)

Section Monad.
Context {V : Type}.

(** What a run leaves behind: how it ended, the calls it made in order, the
    vault afterwards. *)
Record Outcome (A : Type) := {
  result : Result A;
  events : list Event;
  vault : V;
}.
Arguments result {A} _.
Arguments events {A} _.
Arguments vault {A} _.

Definition M (A : Type) : Type := V → Outcome A.

Definition ret {A} (a : A) : M A :=
  λ v, {| result := Ok a; events := []; vault := v |}.

Definition throw {A} (e : Error) : M A :=
  λ v, {| result := Throw e; events := []; vault := v |}.

Definition bind {A B} (m : M A) (k : A → M B) : M B :=
  λ v, let o := m v in
       match result o with
       | Throw e => {| result := Throw e; events := events o; vault := vault o |}
       | Ok a =>
           let o' := k a (vault o) in
           {| result := result o';
              events := events o ++ events o';
              vault := vault o' |}
       end.

(** [try { m } catch (e) { handler(e) }] *)
Definition tryCatch {A} (m : M A) (handler : Error → M A) : M A :=
  λ v, let o := m v in
       match result o with
       | Ok a => o
       | Throw e =>
           let o' := handler e (vault o) in
           {| result := result o';
              events := events o ++ events o';
              vault := vault o' |}
       end.

Definition emit (e : Event) : M unit :=
  λ v, {| result := Ok tt; events := [e]; vault := v |}.

(** A call that does not touch the vault. *)
Definition liftResult {A} (r : Result A) : M A :=
  λ v, {| result := r; events := []; vault := v |}.

(** A call into the vault. *)
Definition call {A} (f : V → Result A * V) : M A :=
  λ v, {| result := (f v).1; events := []; vault := (f v).2 |}.

Definition getVault : M V :=
  λ v, {| result := Ok v; events := []; vault := v |}.

(** [for (let x of xs) s = await body(x, s)] *)
Fixpoint forEach {A S} (xs : list A) (body : A → S → M S) (s : S) : M S :=
  match xs with
  | [] => ret s
  | x :: xs' => bind (body x s) (λ s', forEach xs' body s')
  end.
End Monad.

Arguments Outcome : clear implicits.
Arguments M : clear implicits.
Arguments result {V A} _.
Arguments events {V A} _.
Arguments vault {V A} _.

(** The computations form a monad; [x ← m; k] and [m;; k] are stdpp's
    notations for it. *)
Global Instance M_ret {V} : MRet (M V) := λ A a, ret a.
Global Instance M_bind {V} : MBind (M V) := λ A B k m, bind m k.

(** ** What the importer calls *)

(** The collaborators of [import].  [V] is the state of the vault.

    - [normalizePath] is Obsidian's.
    - [getOutputFolder] and [createFolders] are methods of the base class
      [FormatImporter]; [getConfig] stands for
      [vault.getConfig('attachmentFolderPath')].
    - [getNotionId], [parseFileInfo], [cleanDuplicates], [assembleParentIds]
      and [readToMarkdown] are the helpers imported from [./notion/].
      [getNotionId] answers [None] where the JavaScript function answers a
      value that counts as false: the importer only ever tests the answer
      with [!id] and [&&].  [parseFileInfo] and [cleanDuplicates] rewrite the
      two maps in place, so they return the maps they leave; [parseFileInfo]
      may throw after it has written.
    - [vault_create], [processFrontMatter] and [writeBinary] are the vault's
      [create], the file manager's [processFrontMatter] and the adapter's
      [writeBinary]. *)
Record Host (V : Type) := {
  normalizePath : string → string;
  getOutputFolder : V → option TFolder;
  getConfig : V → option string;
  getNotionId : string → option string;
  parseFileInfo : ZipEntryFile → Maps → string → Maps * Result unit;
  cleanDuplicates : V → Maps → string → string → bool → Maps;
  assembleParentIds :
    NotionFileInfo → gmap string NotionFileInfo → list string;
  readToMarkdown :
    ZipEntryFile → list string → Maps → Result (string * list Property);
  createFolders : string → V → Result unit * V;
  vault_create : string → string → V → Result TFile * V;
  processFrontMatter : TFile → list Property → V → Result unit * V;
  writeBinary : string → list Byte.byte → V → Result unit * V;
}.
Arguments normalizePath {V} _ _.
Arguments getOutputFolder {V} _ _.
Arguments getConfig {V} _ _.
Arguments getNotionId {V} _ _.
Arguments parseFileInfo {V} _ _ _ _.
Arguments cleanDuplicates {V} _ _ _ _ _ _.
Arguments assembleParentIds {V} _ _ _.
Arguments readToMarkdown {V} _ _ _ _.
Arguments createFolders {V} _ _ _.
Arguments vault_create {V} _ _ _ _.
Arguments processFrontMatter {V} _ _ _ _.
Arguments writeBinary {V} _ _ _ _.

(** The fields of [NotionImporter] that [import] reads. *)
Record NotionImporter := {
  files : list PickedFile;
  parentsInSubfolders : bool;
}.

(** ** The importer *)

Section Importer.
Context {V : Type} (host : Host V).

(** [filename.endsWith('.csv') && getNotionId(filename)] *)
Definition isDatabaseCSV (filename : string) : bool :=
  endsWith filename ".csv" &&
  match getNotionId host filename with Some _ => true | None => false end.

(** The inner loop of [processZips]: the entries of one zip file. *)
Definition processEntries {S} (entries : list ZipEntryFile)
    (callback : ZipEntryFile → S → M V S) (s : S) : M V S :=
  forEach entries
    (λ file s,
       if isDatabaseCSV (filepath file) then ret s else callback file s)
    s.

(** The body of the outer loop of [processZips]: one zip file. *)
Definition processZip {S} (zipFile : PickedFile)
    (callback : ZipEntryFile → S → M V S) (s : S) : M V S :=
  emit (EReadZip (zipName zipFile));;
  entries ← liftResult (readZip zipFile);
  processEntries entries callback s.

(** [processZips(files, callback)].  [S] is what the callback keeps between
    entries (in the source: the variables it closes over). *)
Definition processZips {S} (files : list PickedFile)
    (callback : ZipEntryFile → S → M V S) (s : S) : M V S :=
  forEach files (λ zipFile s, processZip zipFile callback s) s.

(** Lines 40-43: the target folder, ending in a slash. *)
Definition targetFolderPathOf (folder : TFolder) : string :=
  let targetFolderPath := normalizePath host (folder_path folder) in
  if endsWith targetFolderPath "/" then targetFolderPath
  else targetFolderPath +:+ "/".

(** Lines 50-61: the callback of pass 1. *)
Definition pass1Callback (attachmentFolderPath : string)
    (file : ZipEntryFile) (maps : Maps) : M V Maps :=
  let '(maps', r) := parseFileInfo host file maps attachmentFolderPath in
  match r with
  | Ok _ => ret maps'
  | Throw _ => emit (EReportSkipped (filepath file));; ret maps'
  end.

(** What pass 1 and duplicate resolution leave for pass 2. *)
Record Plan := {
  targetFolderPath : string;
  total : nat;
  planned : Maps;
}.

(** [Object.values(idsToFileInfo)] and [Object.values(pathsToAttachmentInfo)],
    in the order in which the map lists its keys. *)
Definition fileInfos (maps : Maps) : list NotionFileInfo :=
  (map_to_list (idsToFileInfo maps)).*2.
Definition attachmentInfos (maps : Maps) : list NotionAttachmentInfo :=
  (map_to_list (pathsToAttachmentInfo maps)).*2.

(** Line 79: the folder of a document. *)
Definition documentFolder (plan : Plan) (fileInfo : NotionFileInfo) : string :=
  targetFolderPath plan +:+
  join (assembleParentIds host fileInfo (idsToFileInfo (planned plan))).

(** Lines 121-124: the path of a document. *)
Definition documentPath (plan : Plan) (fileInfo : NotionFileInfo) : string :=
  documentFolder plan fileInfo +:+ title fileInfo +:+ ".md".

(** Lines 149-151: the path of an attachment. *)
Definition attachmentPath (attachmentInfo : NotionAttachmentInfo) : string :=
  normalizePath host
    (targetParentFolder attachmentInfo +:+ nameWithExtension attachmentInfo).

(** Lines 77-85. *)
Definition allFolderPaths (plan : Plan) : list string :=
  (documentFolder plan <$> fileInfos (planned plan)) ++
  (targetParentFolder <$> attachmentInfos (planned plan)).

(** [set.add(x)] on a [Set] kept in insertion order. *)
Definition setAdd (set : list string) (x : string) : list string :=
  if decide (x ∈ set) then set else set ++ [x].

(** Lines 76-88. *)
Definition flatFolderPaths (plan : Plan) : list string :=
  foldl setAdd [targetFolderPath plan] (allFolderPaths plan).

(** Lines 89-91. *)
Definition createAllFolders (plan : Plan) : M V unit :=
  forEach (flatFolderPaths plan)
    (λ path _, emit (ECreateFolders path);; call (createFolders host path))
    tt.

(** Line 93. *)
Definition attachmentPaths (plan : Plan) : list string :=
  (map_to_list (pathsToAttachmentInfo (planned plan))).*1.

(** Lines 102-155: the body of the [try] of pass 2. *)
Definition writeEntry (plan : Plan) (file : ZipEntryFile) : M V unit :=
  if String.eqb (extension file) "html" then
    match getNotionId host (name file) with
    | None => throw ("ids not found for " +:+ filepath file)
    | Some id =>
        match idsToFileInfo (planned plan) !! id with
        | None => throw ("file info not found for " +:+ filepath file)
        | Some fileInfo =>
            emit (EReadToMarkdown (filepath file));;
            '(markdownBody, properties) ←
              liftResult (readToMarkdown host file (attachmentPaths plan)
                            (planned plan));
            let path := documentPath plan fileInfo in
            emit (EVaultCreate path markdownBody);;
            newFile ← call (vault_create host path markdownBody);
            (if (0 <? length properties)%nat then
               emit (EProcessFrontMatter (file_path newFile) properties);;
               call (processFrontMatter host newFile properties)
             else ret tt);;
            emit (EReportNoteSuccess (filepath file))
        end
    end
  else
    match pathsToAttachmentInfo (planned plan) !! filepath file with
    | None => throw ("attachment info not found for " +:+ filepath file)
    | Some attachmentInfo =>
        emit (EFileRead (filepath file));;
        data ← liftResult (read file);
        let path := attachmentPath attachmentInfo in
        emit (EWriteBinary path data);;
        call (writeBinary host path data);;
        emit (EReportAttachmentSuccess (filepath file))
    end.

(** Lines 97-160: the callback of pass 2; [current] is the counter it
    closes over. *)
Definition pass2Callback (plan : Plan) (file : ZipEntryFile)
    (current : nat) : M V nat :=
  let current := S current in
  emit (EReportProgress current (total plan));;
  tryCatch (writeEntry plan file)
           (λ e, emit (EReportFailed (filepath file) e));;
  ret current.

(** Lines 45-74: pass 1 and duplicate resolution. *)
Definition pass1 (imp : NotionImporter) (folder : TFolder) : M V Plan :=
  let targetFolderPath := targetFolderPathOf folder in
  v ← getVault;
  let attachmentFolderPath := default "" (getConfig host v) in
  maps ← processZips (files imp) (pass1Callback attachmentFolderPath) noMaps;
  let notes := size (idsToFileInfo maps) in
  let attachments := size (pathsToAttachmentInfo maps) in
  let total := (notes + attachments)%nat in
  v ← getVault;
  let maps := cleanDuplicates host v maps attachmentFolderPath
                targetFolderPath (parentsInSubfolders imp) in
  ret {| targetFolderPath := targetFolderPath;
         total := total;
         planned := maps |}.

(** Lines 93-160. *)
Definition pass2 (imp : NotionImporter) (plan : Plan) : M V unit :=
  processZips (files imp) (pass2Callback plan) 0%nat;;
  ret tt.

(** [async import(results)] *)
Definition import (imp : NotionImporter) : M V unit :=
  if (length (files imp) =? 0)%nat then
    emit (ENotice "Please pick at least one file to import.")
  else
    v ← getVault;
    match getOutputFolder host v with
    | None => emit (ENotice "Please select a location to export to.")
    | Some folder =>
        plan ← pass1 imp folder;
        createAllFolders plan;;
        pass2 imp plan
    end.

End Importer.

(** ** Vocabulary of the statements *)

Section Vocabulary.
Context {V : Type} (host : Host V).

(** The entries of the picked files, in the order in which [processZips]
    meets them. *)
Definition entriesOf (files : list PickedFile) : list ZipEntryFile :=
  zipFile ← files;
  match readZip zipFile with Ok entries => entries | Throw _ => [] end.

Definition readable (files : list PickedFile) : Prop :=
  Forall (λ zipFile, isOk (readZip zipFile) = true) files.

(** A callback that does nothing but remember the entries it was given. *)
Definition remember (file : ZipEntryFile) (seen : list ZipEntryFile)
  : M V (list ZipEntryFile) :=
  ret (seen ++ [file]).

Definition passedOn (file : ZipEntryFile) : Prop :=
  isDatabaseCSV host (filepath file) = false.

Global Instance passedOn_dec file : Decision (passedOn file).
Proof. unfold passedOn. apply _. Defined.

(** The calls pass 2 makes for a document, and those it makes for an
    attachment. *)
Definition isDocumentCall (e : Event) : bool :=
  match e with
  | EReadToMarkdown _ | EVaultCreate _ _ | EProcessFrontMatter _ _
  | EReportNoteSuccess _ => true
  | _ => false
  end.

Definition isAttachmentCall (e : Event) : bool :=
  match e with
  | EFileRead _ | EWriteBinary _ _ | EReportAttachmentSuccess _ => true
  | _ => false
  end.

(** The calls of pass 1, and those made for an entry in pass 2. *)
Definition isScanEvent (e : Event) : bool :=
  match e with EReadZip _ | EReportSkipped _ => true | _ => false end.

Definition isEntryEvent (e : Event) : bool :=
  isReportProgress e || isReportFailed e
  || isDocumentCall e || isAttachmentCall e.

Definition isReadZip (e : Event) : bool :=
  match e with EReadZip _ => true | _ => false end.

(** Line 47. *)
Definition attachmentFolderPathOf (v : V) : string :=
  default "" (getConfig host v).

(** The two maps as pass 1 leaves them: [parseFileInfo] applied, in order,
    to every entry that is passed on. *)
Definition scanEntries (attachmentFolderPath : string)
    (entries : list ZipEntryFile) (maps : Maps) : Maps :=
  foldl (λ maps file, (parseFileInfo host file maps attachmentFolderPath).1)
    maps (filter passedOn entries).

Definition scanned (imp : NotionImporter) (v : V) : Maps :=
  scanEntries (attachmentFolderPathOf v) (entriesOf (files imp)) noMaps.

(** What [import] has computed when pass 2 starts (lines 40-74). *)
Definition planOf (imp : NotionImporter) (folder : TFolder) (v : V) : Plan :=
  let maps := scanned imp v in
  {| targetFolderPath := targetFolderPathOf host folder;
     total := size (idsToFileInfo maps) + size (pathsToAttachmentInfo maps);
     planned := cleanDuplicates host v maps (attachmentFolderPathOf v)
                  (targetFolderPathOf host folder)
                  (parentsInSubfolders imp) |}.


(** The folders handed to [createFolders] in a run. *)
Definition createdFolders (trace : list Event) : list string :=
  omap (λ e, match e with ECreateFolders path => Some path | _ => None end)
       trace.

End Vocabulary.


(** ** The helpers of [./notion/], after the specification

    [notion.ts] imports [getNotionId], [assembleParentIds], [parseFileInfo]
    and [cleanDuplicates] from modules whose source is not available.  The
    definitions of this part follow what the specification says about
    them. *)

Module Spec.

(** *** Identity extraction (specification, 4.1) *)

(** The specification fixes the length of an id without naming it; a
    Notion id has 32 hexadecimal digits. *)
Definition idLength : nat := 32.

Definition isHexDigit (c : ascii) : bool :=
  let n := nat_of_ascii c in
  ((48 <=? n) && (n <=? 57) || (97 <=? n) && (n <=? 102)
   || (65 <=? n) && (n <=? 70))%nat.

(** The characters of a file name before its extension, last character
    first: what follows the last dot of the last path component is the
    extension; a name without a dot has none. *)
Fixpoint dropExtension (reversed whole : list ascii) : list ascii :=
  match reversed with
  | [] => whole
  | c :: rest =>
      if Ascii.eqb c "." then rest
      else if Ascii.eqb c "/" then whole
      else dropExtension rest whole
  end.

(** Modelled from the spec: [getNotionId] of [./notion/notion-utils] is
    missing.  It returns the id embedded in a file name if the name follows
    the convention of a fixed-length hexadecimal suffix immediately before
    the extension, and nothing otherwise. *)
Definition getNotionId (filename : string) : option string :=
  let reversed := reverse (String.list_ascii_of_string filename) in
  let stem := dropExtension reversed reversed in
  let suffix := take idLength stem in
  if (length suffix =? idLength)%nat && forallb isHexDigit suffix
  then Some (String.string_of_list_ascii (reverse suffix))
  else None.

(** *** Hierarchy assembly (specification, 4.4) *)

(** The folder segment of a document: its title and the path separator. *)
Definition folderSegment (info : NotionFileInfo) : string :=
  title info +:+ "/".

(** The walk along the parent ids.  [visited] are the ids met so far,
    [ancestors] the ids that have contributed a segment, each with its
    segment, the outermost first.  The walk stops at a document without
    parent, at a parent id that has been visited, and at a parent id that
    is not in the map.  [fuel] bounds the number of steps; [None] means
    that it did not suffice. *)
Fixpoint walkParents (fuel : nat) (allDocuments : gmap string NotionFileInfo)
    (visited : gset string) (parent : option string)
    (ancestors : list (string * string)) : option (list (string * string)) :=
  match fuel with
  | O => None
  | S fuel =>
      match parent with
      | None => Some ancestors
      | Some parentId =>
          if decide (parentId ∈ visited) then Some ancestors
          else
            match allDocuments !! parentId with
            | None => Some ancestors
            | Some info =>
                walkParents fuel allDocuments ({[parentId]} ∪ visited)
                  (doc_parent info)
                  ((parentId, folderSegment info) :: ancestors)
            end
      end
  end.

(** The ancestors of a document; the walk starts at the document, whose id
    is therefore visited from the outset. *)
Definition ancestorsOf (document : NotionFileInfo)
    (allDocuments : gmap string NotionFileInfo) : option (list (string * string)) :=
  walkParents (S (size allDocuments)) allDocuments {[doc_id document]}
    (doc_parent document) [].

(** Modelled from the spec: [assembleParentIds] of [./notion/notion-utils]
    is missing.  It returns the path segments from the root to the
    immediate parent of the document, walking the parent ids and keeping a
    set of visited ids so that a cycle ends the walk. *)
Definition assembleParentIds (document : NotionFileInfo)
    (allDocuments : gmap string NotionFileInfo) : list string :=
  (default [] (ancestorsOf document allDocuments)).*2.

(** [ids] are the ids met, in this order, when the parent ids are followed
    from [parent], and [stop] is the parent id of the last of them. *)
Fixpoint followed (allDocuments : gmap string NotionFileInfo)
    (parent : option string) (ids : list string) (stop : option string)
  : Prop :=
  match ids with
  | [] => stop = parent
  | id :: rest =>
      parent = Some id
      ∧ ∃ info, allDocuments !! id = Some info
                ∧ followed allDocuments (doc_parent info) rest stop
  end.

(** *** Scanning (specification, 4.2) *)

Definition stemReversed (filename : string) : list ascii :=
  let reversed := reverse (String.list_ascii_of_string filename) in
  dropExtension reversed reversed.

Fixpoint dropSpaces (cs : list ascii) : list ascii :=
  match cs with
  | c :: rest => if Ascii.eqb c " " then dropSpaces rest else cs
  | [] => []
  end.

(** The title of a document: its file name without the extension, the id
    and the blank before the id. *)
Definition titleOf (filename : string) : string :=
  String.string_of_list_ascii
    (reverse (dropSpaces (drop idLength (stemReversed filename)))).

Fixpoint dropLastComponent (reversed : list ascii) : list ascii :=
  match reversed with
  | [] => []
  | c :: rest => if Ascii.eqb c "/" then rest else dropLastComponent rest
  end.

(** The folder of the archive in which an entry lies: its path up to the
    last slash. *)
Definition enclosingFolder (path : string) : string :=
  String.string_of_list_ascii
    (reverse (dropLastComponent
                (reverse (String.list_ascii_of_string path)))).

(** Modelled from the spec: [parseFileInfo] of [./notion/parse-info] is
    missing.  An entry is parsed for path, title and parent and inserted
    into the map it belongs to: a document (an entry with extension "html")
    under its id, anything else under its path in the archive.  A document
    in whose name no id is found cannot be inserted, which is an error. *)
Definition parseFileInfo (file : ZipEntryFile) (maps : Maps)
    (attachmentFolderPath : string) : Maps * Result unit :=
  let parent := getNotionId (enclosingFolder (filepath file)) in
  if String.eqb (extension file) "html" then
    match getNotionId (name file) with
    | None => (maps, Throw ("no id in " +:+ filepath file))
    | Some id =>
        let info := {| title := titleOf (name file);
                       doc_id := id;
                       doc_parent := parent;
                       doc_path := filepath file;
                       doc_size := entry_size file |} in
        ({| idsToFileInfo := <[id := info]> (idsToFileInfo maps);
            pathsToAttachmentInfo := pathsToAttachmentInfo maps |},
         Ok tt)
    end
  else
    let info := {| nameWithExtension := name file;
                   targetParentFolder := "";
                   att_owner := parent;
                   att_size := entry_size file |} in
    ({| idsToFileInfo := idsToFileInfo maps;
        pathsToAttachmentInfo :=
          <[filepath file := info]> (pathsToAttachmentInfo maps) |},
     Ok tt).

(** *** Duplicate resolution (specification, 4.3) *)

Section Dedupe.
Context {A C : Type} `{EqDecision C}.
Variable class : string → A → C.
Variable bytes : A → nat.

(** Of two entries the larger is kept and, of two of the same size, the
    one with the smaller key. *)
Definition preferred (k1 : string) (a1 : A) (k2 : string) (a2 : A) : Prop :=
  bytes a2 < bytes a1 ∨ (bytes a2 = bytes a1 ∧ String.le k1 k2).

Global Instance preferred_dec k1 a1 k2 a2 : Decision (preferred k1 a1 k2 a2).
Proof. unfold preferred. apply _. Defined.

(** An entry is retained if it is preferred to every entry of its
    class. *)
Definition retained (m : gmap string A) (entry : string * A) : Prop :=
  map_Forall (λ k a, class k a = class entry.1 entry.2 →
                     preferred entry.1 entry.2 k a) m.

Global Instance retained_dec m entry : Decision (retained m entry).
Proof using Type*. unfold retained. apply _. Defined.

Definition dedupe (m : gmap string A) : gmap string A :=
  filter (retained m) m.
End Dedupe.

Section Resolver.
(** The normalization under which two ids name the same document. *)
Variable canonical : string → string.

Definition documentClass (id : string) (_ : NotionFileInfo) : string :=
  canonical id.

Definition retainedDocuments (ids : gmap string NotionFileInfo)
  : gmap string NotionFileInfo :=
  dedupe documentClass doc_size ids.

(** The id that replaces a reference to [id]: that of the retained
    document with the same canonical id, if there is one. *)
Definition retainedId (ids : gmap string NotionFileInfo) (id : string)
  : string :=
  match map_to_list
          (filter (λ entry, canonical entry.1 = canonical id)
             (retainedDocuments ids)) with
  | (k, _) :: _ => k
  | [] => id
  end.

Definition rewriteParent (ids : gmap string NotionFileInfo)
    (info : NotionFileInfo) : NotionFileInfo :=
  {| title := title info;
     doc_id := doc_id info;
     doc_parent := retainedId ids <$> doc_parent info;
     doc_path := doc_path info;
     doc_size := doc_size info |}.

Definition resolveDocuments (ids : gmap string NotionFileInfo)
  : gmap string NotionFileInfo :=
  rewriteParent ids <$> retainedDocuments ids.

Definition rewriteOwner (ids : gmap string NotionFileInfo)
    (info : NotionAttachmentInfo) : NotionAttachmentInfo :=
  {| nameWithExtension := nameWithExtension info;
     targetParentFolder := targetParentFolder info;
     att_owner := retainedId ids <$> att_owner info;
     att_size := att_size info |}.

(** Two attachments are duplicates if they belong to the same document
    and have the same name. *)
Definition attachmentClass (_ : string) (info : NotionAttachmentInfo)
  : option string * string :=
  (att_owner info, nameWithExtension info).

(** The subfolder for attachments, as a folder path. *)
Definition attachmentSubfolder (attachmentFolderPath : string) : string :=
  if String.eqb attachmentFolderPath "" then ""
  else if endsWith attachmentFolderPath "/" then attachmentFolderPath
  else attachmentFolderPath +:+ "/".

(** The folder of an attachment: that of the owning document if parents
    are saved in subfolders, else the target folder; in either case
    followed by the subfolder for attachments. *)
Definition attachmentFolder (resolved : gmap string NotionFileInfo)
    (attachmentFolderPath targetFolderPath : string)
    (parentsInSubfolders : bool) (info : NotionAttachmentInfo) : string :=
  (if parentsInSubfolders then
     match att_owner info ≫= (resolved !!.) with
     | Some owner =>
         targetFolderPath +:+ join (assembleParentIds owner resolved)
     | None => targetFolderPath
     end
   else targetFolderPath)
  +:+ attachmentSubfolder attachmentFolderPath.

Definition assignFolder (resolved : gmap string NotionFileInfo)
    (attachmentFolderPath targetFolderPath : string)
    (parentsInSubfolders : bool) (info : NotionAttachmentInfo)
  : NotionAttachmentInfo :=
  {| nameWithExtension := nameWithExtension info;
     targetParentFolder :=
       attachmentFolder resolved attachmentFolderPath targetFolderPath
         parentsInSubfolders info;
     att_owner := att_owner info;
     att_size := att_size info |}.

Definition resolveAttachments (ids resolved : gmap string NotionFileInfo)
    (attachmentFolderPath targetFolderPath : string)
    (parentsInSubfolders : bool)
    (paths : gmap string NotionAttachmentInfo)
  : gmap string NotionAttachmentInfo :=
  assignFolder resolved attachmentFolderPath targetFolderPath
    parentsInSubfolders
  <$> dedupe attachmentClass att_size (rewriteOwner ids <$> paths).

(** Modelled from the spec: [cleanDuplicates] of
    [./notion/clean-duplicates] is missing.  Of the documents with the
    same canonical id, and of the attachments of one document with the
    same name, the largest is retained; every reference to a discarded
    document (parent ids, owners of attachments) is rewritten to the
    retained one; and every retained attachment is given its folder. *)
Definition cleanDuplicates (maps : Maps)
    (attachmentFolderPath targetFolderPath : string)
    (parentsInSubfolders : bool) : Maps :=
  let resolved := resolveDocuments (idsToFileInfo maps) in
  {| idsToFileInfo := resolved;
     pathsToAttachmentInfo :=
       resolveAttachments (idsToFileInfo maps) resolved
         attachmentFolderPath targetFolderPath parentsInSubfolders
         (pathsToAttachmentInfo maps) |}.
End Resolver.

End Spec.

(** ** A vault in memory and an archive, to run the importer on *)

Module Demo.

(** A vault: the files it holds, the attachment folder of its
    configuration, and the output location chosen in the dialog. *)
Record Vault := {
  vaultFiles : gset string;
  vaultFolders : gset string;
  attachmentFolderPath : option string;
  outputLocation : option string;
}.

Definition addFile (path : string) (v : Vault) : Vault :=
  {| vaultFiles := {[path]} ∪ vaultFiles v;
     vaultFolders := vaultFolders v;
     attachmentFolderPath := attachmentFolderPath v;
     outputLocation := outputLocation v |}.

Definition addFolder (path : string) (v : Vault) : Vault :=
  {| vaultFiles := vaultFiles v;
     vaultFolders := {[path]} ∪ vaultFolders v;
     attachmentFolderPath := attachmentFolderPath v;
     outputLocation := outputLocation v |}.

Fixpoint dropSlashes (cs : list ascii) : list ascii :=
  match cs with
  | c :: rest => if Ascii.eqb c "/" then dropSlashes rest else cs
  | [] => []
  end.

(** Stands for Obsidian's [normalizePath] as far as the examples need it:
    slashes at either end are removed, and the empty path is the root. *)
Definition stripSlashes (path : string) : string :=
  let inner :=
    reverse (dropSlashes
               (reverse (dropSlashes (String.list_ascii_of_string path)))) in
  match inner with
  | [] => "/"
  | _ => String.string_of_list_ascii inner
  end.

Definition toLower (c : ascii) : ascii :=
  let n := nat_of_ascii c in
  if ((65 <=? n) && (n <=? 90))%nat then ascii_of_nat (n + 32) else c.

(** Ids are compared without regard to the case of their digits. *)
Definition canonical (id : string) : string :=
  String.string_of_list_ascii (toLower <$> String.list_ascii_of_string id).

(** A conversion that takes the bytes of the entry for its text and finds
    no properties; it fails on an entry that cannot be read. *)
Definition readAsText (file : ZipEntryFile)
    (attachmentPaths : list string) (maps : Maps)
  : Result (string * list Property) :=
  match read file with
  | Ok data => Ok (String.string_of_list_byte data, [])
  | Throw e => Throw e
  end.

(** Creating a file fails where one exists; creating a folder fails where
    a file is in the way; writing binary data overwrites. *)
Definition createFile (path data : string) (v : Vault)
  : Result TFile * Vault :=
  if decide (path ∈ vaultFiles v) then (Throw "File already exists.", v)
  else (Ok {| file_path := path |}, addFile path v).

Definition makeFolder (path : string) (v : Vault) : Result unit * Vault :=
  if decide (stripSlashes path ∈ vaultFiles v)
  then (Throw "Folder already exists.", v)
  else (Ok tt, addFolder path v).

Definition writeFile (path : string) (data : list Byte.byte) (v : Vault)
  : Result unit * Vault :=
  (Ok tt, addFile path v).

Definition host : Host Vault :=
  {| normalizePath := stripSlashes;
     getOutputFolder v := (λ p, {| folder_path := p |}) <$> outputLocation v;
     getConfig := attachmentFolderPath;
     getNotionId := Spec.getNotionId;
     parseFileInfo := Spec.parseFileInfo;
     cleanDuplicates _ := Spec.cleanDuplicates canonical;
     assembleParentIds := Spec.assembleParentIds;
     readToMarkdown := readAsText;
     createFolders := makeFolder;
     vault_create := createFile;
     processFrontMatter _ _ v := (Ok tt, v);
     writeBinary := writeFile |}.

(** An empty vault with output location "Notion". *)
Definition emptyVault : Vault :=
  {| vaultFiles := ∅;
     vaultFolders := ∅;
     attachmentFolderPath := None;
     outputLocation := Some "Notion" |}.

(** An export: a page, a page below it, a picture and a database. *)
Definition rootId : string := "00000000000000000000000000000001".
Definition childId : string := "00000000000000000000000000000002".
Definition tableId : string := "00000000000000000000000000000003".

Definition rootPage : ZipEntryFile :=
  {| name := "Root " +:+ rootId +:+ ".html";
     extension := "html";
     filepath := "Root " +:+ rootId +:+ ".html";
     entry_size := 4;
     read := Ok [Byte.x52; Byte.x6f; Byte.x6f; Byte.x74] |}.

Definition childPage : ZipEntryFile :=
  {| name := "Child " +:+ childId +:+ ".html";
     extension := "html";
     filepath := "Root " +:+ rootId +:+ "/Child " +:+ childId +:+ ".html";
     entry_size := 5;
     read := Ok [Byte.x43; Byte.x68; Byte.x69; Byte.x6c; Byte.x64] |}.

Definition picture : ZipEntryFile :=
  {| name := "picture.png";
     extension := "png";
     filepath := "Root " +:+ rootId +:+ "/picture.png";
     entry_size := 2;
     read := Ok [Byte.x89; Byte.x50] |}.

Definition table : ZipEntryFile :=
  {| name := "Table " +:+ tableId +:+ ".csv";
     extension := "csv";
     filepath := "Root " +:+ rootId +:+ "/Table " +:+ tableId +:+ ".csv";
     entry_size := 3;
     read := Ok [Byte.x61; Byte.x2c; Byte.x62] |}.

(** A page whose text cannot be read. *)
Definition brokenPage : ZipEntryFile :=
  {| name := "Broken " +:+ tableId +:+ ".html";
     extension := "html";
     filepath := "Broken " +:+ tableId +:+ ".html";
     entry_size := 0;
     read := Throw "corrupt entry" |}.

Definition export : PickedFile :=
  {| zipName := "export.zip";
     readZip := Ok [rootPage; childPage; picture; table] |}.

(** The same export once more, as picked a second time or exported
    twice. *)
Definition exportAgain : PickedFile :=
  {| zipName := "export (1).zip";
     readZip := Ok [rootPage; childPage; picture; table] |}.



Definition notAZip : PickedFile :=
  {| zipName := "notes.zip"; readZip := Throw "not a zip file" |}.

(** The calls made for the entries of [export] in pass 2. *)
Definition exportEntryCalls : list Event :=
  [EReportProgress 1 3;
   EReadToMarkdown (filepath rootPage);
   EVaultCreate "Notion/Root.md" "Root";
   EReportNoteSuccess (filepath rootPage);
   EReportProgress 2 3;
   EReadToMarkdown (filepath childPage);
   EVaultCreate "Notion/Root/Child.md" "Child";
   EReportNoteSuccess (filepath childPage);
   EReportProgress 3 3;
   EFileRead (filepath picture);
   EWriteBinary "Notion/picture.png" [Byte.x89; Byte.x50];
   EReportAttachmentSuccess (filepath picture)].

(** A page in whose name there is no id. *)
Definition untitledPage : ZipEntryFile :=
  {| name := "Untitled.html";
     extension := "html";
     filepath := "Untitled.html";
     entry_size := 1;
     read := Ok [Byte.x55] |}.



(** Two documents, each the parent of the other. *)
Definition pageA : NotionFileInfo :=
  {| title := "A"; doc_id := "a"; doc_parent := Some "b";
     doc_path := "A a.html"; doc_size := 1 |}.
Definition pageB : NotionFileInfo :=
  {| title := "B"; doc_id := "b"; doc_parent := Some "a";
     doc_path := "B b.html"; doc_size := 1 |}.
Definition cyclic : gmap string NotionFileInfo :=
  {[ "a" := pageA; "b" := pageB ]}.

(** The same document exported twice, under ids that differ in case: 10
    bytes and 500 bytes; and a page below the smaller one. *)
Definition small : NotionFileInfo :=
  {| title := "Page"; doc_id := "ABCD"; doc_parent := None;
     doc_path := "Page ABCD.html"; doc_size := 10 |}.
Definition large : NotionFileInfo :=
  {| title := "Page"; doc_id := "abcd"; doc_parent := None;
     doc_path := "Page abcd.html"; doc_size := 500 |}.
Definition below : NotionFileInfo :=
  {| title := "Below"; doc_id := "ef01"; doc_parent := Some "ABCD";
     doc_path := "Page ABCD/Below ef01.html"; doc_size := 7 |}.
Definition exportedTwice : Maps :=
  {| idsToFileInfo := {[ "ABCD" := small; "abcd" := large; "ef01" := below ]};
     pathsToAttachmentInfo := ∅ |}.

(** The output folder of these vaults. *)
Definition notion : TFolder := {| folder_path := "Notion" |}.

Definition importer (files : list PickedFile) : NotionImporter :=
  {| files := files; parentsInSubfolders := false |}.

End Demo.

(** ** The rule for encrypted notes

    Source: [src/formats/yarle/utils/turndown-rules/encrypt-rule.ts]. *)

Module EncryptRule.

(** [filter: ['en-crypt']] *)
Definition filter : list string := ["en-crypt"].

(** [replacement: (content, _) => `\`evernote_secret ${content}\``]; the
    second argument, of whatever kind, is not looked at. *)
Definition replacement {N : Type} (content : string) (_ : N) : string :=
  "`evernote_secret " +:+ content +:+ "`".

Fixpoint countBackticks (s : string) : nat :=
  match s with
  | EmptyString => 0
  | String c rest =>
      (if Ascii.eqb c "`" then 1 else 0) + countBackticks rest
  end.

End EncryptRule.

(** ** What a trace tells *)

Section Reports.
Context {V : Type} (host : Host V).


Definition isSuccess (e : Event) : bool :=
  match e with
  | EReportNoteSuccess _ | EReportAttachmentSuccess _ => true
  | _ => false
  end.


Definition skippedPaths (trace : list Event) : list string :=
  omap (λ e, match e with EReportSkipped path => Some path | _ => None end)
       trace.

(** The picked files up to and including the first that cannot be
    opened. *)
Fixpoint upToUnreadable (files : list PickedFile) : list PickedFile :=
  match files with
  | [] => []
  | zipFile :: rest =>
      if isOk (readZip zipFile) then zipFile :: upToUnreadable rest
      else [zipFile]
  end.

(** The paths that pass 1 reports as skipped: those of the entries on
    which [parseFileInfo] throws, each applied to the maps as the entries
    before it have left them. *)
Fixpoint skippedBy (attachmentFolderPath : string)
    (entries : list ZipEntryFile) (maps : Maps) : list string :=
  match entries with
  | [] => []
  | file :: rest =>
      let parsed := parseFileInfo host file maps attachmentFolderPath in
      (if isOk parsed.2 then [] else [filepath file])
      ++ skippedBy attachmentFolderPath rest parsed.1
  end.

(** A zip file with its database exports taken out. *)
Definition withoutDatabaseCSV (zipFile : PickedFile) : PickedFile :=
  {| zipName := zipName zipFile;
     readZip := match readZip zipFile with
                | Ok entries => Ok (filter (passedOn host) entries)
                | Throw e => Throw e
                end |}.

Definition withoutDatabaseCSVs (imp : NotionImporter) : NotionImporter :=
  {| files := withoutDatabaseCSV <$> files imp;
     parentsInSubfolders := parentsInSubfolders imp |}.

End Reports.

(** ** The order of the calls for an entry *)

(** [comesAfter e w]: [w] is what the code does right before [e]: a
    document is created after its conversion, its front matter is written
    after its creation, an attachment is written after it has been read, and
    a success is reported after the last write for the entry. *)
Definition comesAfter (e w : Event) : bool :=
  match e, w with
  | EVaultCreate _ _, EReadToMarkdown _
  | EProcessFrontMatter _ _, EVaultCreate _ _
  | EReportNoteSuccess _, (EVaultCreate _ _ | EProcessFrontMatter _ _)
  | EWriteBinary _ _, EFileRead _
  | EReportAttachmentSuccess _, EWriteBinary _ _ => true
  | _, _ => false
  end.

(** [answers next w]: [next] is what may follow the write [w]: the next
    write for the same entry, the report of its success, or the report of
    its failure. *)
Definition answers (next w : Event) : bool :=
  match w, next with
  | EVaultCreate _ _,
    (EProcessFrontMatter _ _ | EReportNoteSuccess _ | EReportFailed _ _)
  | EProcessFrontMatter _ _, (EReportNoteSuccess _ | EReportFailed _ _)
  | EWriteBinary _ _, (EReportAttachmentSuccess _ | EReportFailed _ _) => true
  | _, _ => false
  end.

(** Every event of [trace] that satisfies [P] comes right after one that
    is related to it by [R]. *)
Fixpoint eachPrecededFrom (R : Event → Event → bool) (P : Event → bool)
    (previous : option Event) (trace : list Event) : bool :=
  match trace with
  | [] => true
  | e :: rest =>
      (if P e then from_option (R e) false previous else true)
      && eachPrecededFrom R P (Some e) rest
  end.

Definition eachPreceded (R : Event → Event → bool) (P : Event → bool)
    (trace : list Event) : bool :=
  eachPrecededFrom R P None trace.

(** Every event of [trace] that satisfies [P] is followed at once by one
    that is related to it by [R]. *)
Fixpoint eachFollowed (R : Event → Event → bool) (P : Event → bool)
    (trace : list Event) : bool :=
  match trace with
  | [] => true
  | e :: rest =>
      (if P e then from_option (λ next, R next e) false (head rest)
       else true)
      && eachFollowed R P rest
  end.

(** ** A conversion that finds a property *)

Module Tagged.
Import Demo.

Definition tag : Property :=
  {| prop_title := "tags"; prop_content := "notion" |}.

(** As [Demo.readAsText], but every page has the property [tag]. *)
Definition readWithTag (file : ZipEntryFile)
    (attachmentPaths : list string) (maps : Maps)
  : Result (string * list Property) :=
  match read file with
  | Ok data => Ok (String.string_of_list_byte data, [tag])
  | Throw e => Throw e
  end.

Definition host : Host Vault :=
  {| normalizePath := normalizePath Demo.host;
     getOutputFolder := getOutputFolder Demo.host;
     getConfig := getConfig Demo.host;
     getNotionId := getNotionId Demo.host;
     parseFileInfo := parseFileInfo Demo.host;
     cleanDuplicates := cleanDuplicates Demo.host;
     assembleParentIds := assembleParentIds Demo.host;
     readToMarkdown := readWithTag;
     createFolders := createFolders Demo.host;
     vault_create := vault_create Demo.host;
     processFrontMatter := processFrontMatter Demo.host;
     writeBinary := writeBinary Demo.host |}.

(** An export of one page. *)
Definition onePage : PickedFile :=
  {| zipName := "page.zip"; readZip := Ok [rootPage] |}.

End Tagged.
(** * Properties *)

(** ** Laws of the computations *)

Section MonadLaws.
Context {V : Type}.
Implicit Types v : V.

Lemma outcome_eta {A} (o : Outcome V A) :
  {| result := result o; events := events o; vault := vault o |} = o.
Proof. by destruct o. Qed.

Lemma bind_ret_l {A B} (a : A) (k : A → M V B) v :
  (ret a ≫= k) v = k a v.
Proof. unfold mbind, M_bind, bind; simpl. apply outcome_eta. Qed.

Lemma bind_getVault {B} (k : V → M V B) v :
  (getVault ≫= k) v = k v v.
Proof. unfold mbind, M_bind, bind; simpl. apply outcome_eta. Qed.

Lemma bind_emit {B} (e : Event) (k : unit → M V B) v :
  (emit e ≫= k) v =
  {| result := result (k tt v);
     events := e :: events (k tt v);
     vault := vault (k tt v) |}.
Proof. reflexivity. Qed.

Lemma bind_ok {A B} (m : M V A) (k : A → M V B) v a :
  result (m v) = Ok a →
  (m ≫= k) v =
  {| result := result (k a (vault (m v)));
     events := events (m v) ++ events (k a (vault (m v)));
     vault := vault (k a (vault (m v))) |}.
Proof. intros Hr. unfold mbind, M_bind, bind. by rewrite Hr. Qed.

Lemma bind_throw {A B} (m : M V A) (k : A → M V B) v e :
  result (m v) = Throw e →
  (m ≫= k) v =
  {| result := Throw e; events := events (m v); vault := vault (m v) |}.
Proof. intros Hr. unfold mbind, M_bind, bind. by rewrite Hr. Qed.

Lemma forEach_cons {A S} (x : A) xs (body : A → S → M V S) s v :
  forEach (x :: xs) body s v = (body x s ≫= forEach xs body) v.
Proof. reflexivity. Qed.

(** A loop over [xs ++ ys] is the loop over [xs] followed by the loop over
    [ys]. *)
Lemma forEach_app {A S} (xs ys : list A) (body : A → S → M V S) s v :
  forEach (xs ++ ys) body s v = (forEach xs body s ≫= forEach ys body) v.
Proof.
  revert s v. induction xs as [|x xs IH]; intros s v.
  - simpl. by rewrite bind_ret_l.
  - simpl. unfold mbind, M_bind, bind.
    destruct (body x s v) as [[s'|e] ev v']; simpl; [|done].
    rewrite IH. unfold mbind, M_bind, bind.
    destruct (forEach xs body s' v') as [[s''|e] ev' v'']; simpl; [|done].
    by rewrite app_assoc.
Qed.

(** A loop whose body never throws does not throw. *)
Lemma forEach_total {A S} (xs : list A) (body : A → S → M V S) :
  (∀ x s v, isOk (result (body x s v)) = true) →
  ∀ s v, isOk (result (forEach xs body s v)) = true.
Proof.
  intros Hbody. induction xs as [|x xs IH]; intros s v; [done|].
  simpl. unfold bind. specialize (Hbody x s v).
  destruct (result (body x s v)) as [s'|e]; [|done]. simpl. apply IH.
Qed.
End MonadLaws.


(** ** Strings *)

Section Strings.
Implicit Types s t u : string.

(** stdpp keeps [simpl] from unfolding [+:+]. *)
Local Ltac step_append := cbv [String.append]; fold String.append.

Lemma append_assoc s t u : (s +:+ t) +:+ u = s +:+ (t +:+ u).
Proof. induction s as [|c s IH]; [done|]. step_append. by f_equal. Qed.

Lemma append_nil_r s : s +:+ "" = s.
Proof. induction s as [|c s IH]; [done|]. step_append. by f_equal. Qed.

Lemma length_append s t :
  String.length (s +:+ t) = (String.length s + String.length t)%nat.
Proof.
  induction s as [|c s IH]; [done|]. step_append. simpl. by f_equal.
Qed.

Lemma substring_all t : String.substring 0 (String.length t) t = t.
Proof. induction t as [|c t IH]; simpl; [done|]. by f_equal. Qed.

Lemma substring_append s t :
  String.substring (String.length s) (String.length t) (s +:+ t) = t.
Proof.
  induction s as [|c s IH]; [apply substring_all|]. by step_append.
Qed.

(** [(s + suffix).endsWith(suffix)] *)
Lemma endsWith_append s suffix : endsWith (s +:+ suffix) suffix = true.
Proof.
  unfold endsWith. rewrite length_append.
  replace (String.length s + String.length suffix - String.length suffix)%nat
    with (String.length s) by lia.
  rewrite substring_append, String.eqb_refl, andb_true_r.
  apply Nat.leb_le. lia.
Qed.

Lemma substring_split s m :
  m ≤ String.length s →
  s = String.substring 0 m s +:+ String.substring m (String.length s - m) s.
Proof.
  revert m. induction s as [|c s IH]; intros m Hm.
  - by destruct m.
  - destruct m as [|m].
    + simpl. by rewrite substring_all.
    + simpl in Hm. cbn [String.substring String.length Nat.sub].
      step_append. f_equal. apply IH. lia.
Qed.

(** [s.endsWith(suffix)] holds exactly when [s] is some text followed by
    [suffix]. *)
Lemma endsWith_spec s suffix :
  endsWith s suffix = true ↔ ∃ front, s = front +:+ suffix.
Proof.
  split.
  - unfold endsWith. intros [Hlen Heq]%andb_true_iff.
    apply Nat.leb_le in Hlen. apply String.eqb_eq in Heq.
    exists (String.substring 0 (String.length s - String.length suffix) s).
    pose proof (substring_split s (String.length s - String.length suffix))
      as Hsplit.
    replace (String.length s - (String.length s - String.length suffix))
      with (String.length suffix) in Hsplit by lia.
    rewrite Heq in Hsplit. apply Hsplit. lia.
  - intros [front ->]. apply endsWith_append.
Qed.

Lemma containsSlash_append s t :
  containsSlash (s +:+ t) = containsSlash s || containsSlash t.
Proof.
  induction s as [|c s IH]; [done|]. step_append. simpl.
  by rewrite IH, orb_assoc.
Qed.

Lemma folderPart_no_slash s : containsSlash s = false → folderPart s = "".
Proof. destruct s as [|c s]; [done|]. cbn [folderPart]. by intros ->. Qed.

(** The folder of a file name appended to a folder path is the folder
    path. *)
Lemma folderPart_append folder fileName :
  endsWith folder "/" = true →
  containsSlash fileName = false →
  folderPart (folder +:+ fileName) = folder.
Proof.
  intros [front ->]%endsWith_spec Hname.
  induction front as [|c front IH].
  - change (("" +:+ "/") +:+ fileName) with (String "/" fileName).
    cbn [folderPart containsSlash]. simpl.
    by rewrite folderPart_no_slash.
  - change ((String c front +:+ "/") +:+ fileName)
      with (String c ((front +:+ "/") +:+ fileName)).
    cbn [folderPart containsSlash].
    rewrite !containsSlash_append. simpl.
    rewrite orb_true_r, orb_true_l, orb_true_r, IH. done.
Qed.

Lemma join_app (segments more : list string) :
  join (segments ++ more) = join segments +:+ join more.
Proof.
  unfold join. induction segments as [|s segments IH]; simpl; [done|].
  rewrite IH. symmetry. apply append_assoc.
Qed.
End Strings.
(** ** Which entries reach the callback *)

Section ProcessZips.
Context {V : Type} (host : Host V).
Implicit Types (v : V) (file : ZipEntryFile) (zipFile : PickedFile).

Lemma isDatabaseCSV_spec filename :
  isDatabaseCSV host filename = true ↔
  endsWith filename ".csv" = true ∧ is_Some (getNotionId host filename).
Proof.
  unfold isDatabaseCSV. rewrite andb_true_iff.
  destruct (getNotionId host filename) as [id|]; split; intros [H1 H2];
    split; try done; first [by eexists | by destruct H2].
Qed.

Lemma processEntries_filter {S} entries
    (callback : ZipEntryFile → S → M V S) s v :
  processEntries host entries callback s v =
  forEach (filter (passedOn host) entries) callback s v.
Proof.
  revert s v. induction entries as [|file entries IH]; intros s v; [done|].
  unfold processEntries in *. rewrite forEach_cons.
  rewrite filter_cons.
  destruct (decide (passedOn host file)) as [Hpass|Hskip].
  - unfold passedOn in Hpass. rewrite Hpass, forEach_cons.
    unfold mbind, M_bind, bind.
    destruct (result (callback file s v)); simpl; [|done].
    by rewrite IH.
  - apply not_false_is_true in Hskip. by rewrite Hskip, bind_ret_l, IH.
Qed.

Lemma processZip_ok {S} zipFile
    (callback : ZipEntryFile → S → M V S) s v entries :
  readZip zipFile = Ok entries →
  processZip host zipFile callback s v =
  let o := processEntries host entries callback s v in
  {| result := result o;
     events := EReadZip (zipName zipFile) :: events o;
     vault := vault o |}.
Proof.
  intros Hread. unfold processZip. rewrite bind_emit.
  unfold mbind, M_bind, bind, liftResult; simpl. rewrite Hread.
  by destruct (processEntries host entries callback s v) as [[?|?] ? ?].
Qed.

Lemma processZip_throw {S} zipFile
    (callback : ZipEntryFile → S → M V S) s v e :
  readZip zipFile = Throw e →
  processZip host zipFile callback s v =
  {| result := Throw e;
     events := [EReadZip (zipName zipFile)];
     vault := v |}.
Proof.
  intros Hread. unfold processZip. rewrite bind_emit.
  unfold mbind, M_bind, bind, liftResult; simpl. by rewrite Hread.
Qed.

Lemma processZips_cons {S} zipFile files
    (callback : ZipEntryFile → S → M V S) s v :
  processZips host (zipFile :: files) callback s v =
  (processZip host zipFile callback s ≫=
   processZips host files callback) v.
Proof. reflexivity. Qed.

Lemma processZips_remember files seen v :
  readable files →
  result (processZips host files remember seen v) =
  Ok (seen ++ filter (passedOn host) (entriesOf files)).
Proof.
  intros Hfiles. revert seen v.
  induction Hfiles as [|zipFile files Hzip _ IH]; intros seen v.
  - simpl. by rewrite app_nil_r.
  - destruct (readZip zipFile) as [entries|] eqn:Hread; [|done].
    change (entriesOf (zipFile :: files))
      with (match readZip zipFile with Ok entries => entries | Throw _ => [] end
            ++ entriesOf files).
    rewrite Hread, filter_app, app_assoc.
    assert (Hinner : ∀ seen,
      processEntries host entries remember seen v =
      {| result := Ok (seen ++ filter (passedOn host) entries);
         events := []; vault := v |}).
    { clear. intros seen. rewrite processEntries_filter.
      generalize (filter (passedOn host) entries). intros l. revert seen.
      induction l as [|x l IH]; intros seen; simpl.
      - by rewrite app_nil_r.
      - unfold bind, remember at 1, ret at 1. simpl. rewrite IH. simpl.
        by rewrite <- app_assoc. }
    assert (Hzip' : processZip host zipFile remember seen v =
      {| result := Ok (seen ++ filter (passedOn host) entries);
         events := [EReadZip (zipName zipFile)]; vault := v |}).
    { rewrite (processZip_ok _ _ _ _ entries) by done. by rewrite Hinner. }
    rewrite processZips_cons.
    rewrite (bind_ok _ _ _ (seen ++ filter (passedOn host) entries))
      by (by rewrite Hzip').
    cbn [result]. rewrite Hzip'. cbn [vault]. apply IH.
Qed.

(** Whatever the callback does, over files that can be opened
    [processZips] ends as the plain loop over the entries that are passed
    on, and leaves the same vault. *)
Lemma processZips_forEach {S} files
    (callback : ZipEntryFile → S → M V S) s v :
  readable files →
  result (processZips host files callback s v) =
    result (forEach (filter (passedOn host) (entriesOf files)) callback s v)
  ∧ vault (processZips host files callback s v) =
    vault (forEach (filter (passedOn host) (entriesOf files)) callback s v).
Proof.
  intros Hfiles. revert s v.
  induction Hfiles as [|zipFile files Hzip _ IH]; intros s v; [done|].
  destruct (readZip zipFile) as [entries|] eqn:Hread; [|done].
  change (entriesOf (zipFile :: files))
    with (match readZip zipFile with Ok entries => entries | Throw _ => [] end
          ++ entriesOf files).
  rewrite Hread, filter_app, forEach_app, processZips_cons.
  pose proof (processZip_ok zipFile callback s v entries Hread) as Hz.
  rewrite processEntries_filter in Hz. cbn zeta in Hz.
  unfold mbind, M_bind, bind. rewrite Hz. cbn [result vault events].
  destruct (forEach (filter (passedOn host) entries) callback s v)
    as [[s'|e] ev v']; cbn [result vault events]; [|done].
  apply IH.
Qed.

End ProcessZips.

(** ** Pass 2, one entry *)

(** Unfolds the computations in the goal and splits on every outcome a
    collaborator may have. *)
Ltac run_unfold :=
  unfold mbind, M_bind, bind, tryCatch, emit, liftResult, call, ret, throw,
    getVault in *;
  cbn [result events vault fst snd] in *.

Ltac run_cases :=
  repeat (run_unfold;
          match goal with
          | |- context [match ?r with Ok _ => _ | Throw _ => _ end] =>
              destruct r eqn:?
          | |- context [let '(_, _) := ?p in _] => destruct p eqn:?
          | |- context [if ?b then _ else _] => destruct b eqn:?
          | |- context [match ?o with Some _ => _ | None => _ end] =>
              destruct o eqn:?
          end).

Section WriteEntry.
Context {V : Type} (host : Host V).
Implicit Types (v : V) (file : ZipEntryFile) (plan : Plan).

Lemma writeEntry_html_no_id plan file v :
  extension file = "html" →
  getNotionId host (name file) = None →
  writeEntry host plan file v =
  {| result := Throw ("ids not found for " +:+ filepath file);
     events := []; vault := v |}.
Proof. intros Hext Hid. unfold writeEntry. by rewrite Hext, Hid. Qed.

Lemma writeEntry_html_no_info plan file v id :
  extension file = "html" →
  getNotionId host (name file) = Some id →
  idsToFileInfo (planned plan) !! id = None →
  writeEntry host plan file v =
  {| result := Throw ("file info not found for " +:+ filepath file);
     events := []; vault := v |}.
Proof.
  intros Hext Hid Hinfo. unfold writeEntry. by rewrite Hext, Hid, Hinfo.
Qed.



(** An entry with extension "html" makes document calls only. *)
Lemma writeEntry_html_calls plan file v :
  extension file = "html" →
  Forall (λ e, isDocumentCall e = true) (events (writeEntry host plan file v)).
Proof.
  intros Hext. unfold writeEntry. rewrite Hext. simpl.
  run_cases; repeat constructor.
Qed.

(** Any other entry makes attachment calls only. *)
Lemma writeEntry_other_calls plan file v :
  extension file ≠ "html" →
  Forall (λ e, isAttachmentCall e = true)
         (events (writeEntry host plan file v)).
Proof.
  intros Hext. unfold writeEntry.
  apply String.eqb_neq in Hext. rewrite Hext.
  run_cases; repeat constructor.
Qed.


(** Every file created for a document lies at the document's path. *)
Lemma writeEntry_creates plan file v path data :
  EVaultCreate path data ∈ events (writeEntry host plan file v) →
  extension file = "html" ∧
  ∃ id fileInfo,
    getNotionId host (name file) = Some id
    ∧ idsToFileInfo (planned plan) !! id = Some fileInfo
    ∧ path = documentPath host plan fileInfo.
Proof.
  destruct (decide (extension file = "html")) as [Hext|Hext].
  - intros Hin. split; [done|]. revert Hin. unfold writeEntry.
    rewrite Hext. simpl.
    destruct (getNotionId host (name file)) as [id|];
      [|by intros ?%elem_of_nil].
    destruct (idsToFileInfo (planned plan) !! id) as [fileInfo|] eqn:Hinfo;
      [|by intros ?%elem_of_nil].
    intros Hin. exists id, fileInfo. split; [done|]. split; [done|].
    revert Hin. run_cases; intros Hin; simpl in Hin;
      rewrite ?elem_of_cons, ?elem_of_nil in Hin;
      destruct_or?; try done; congruence.
  - intros Hin. pose proof (writeEntry_other_calls plan file v Hext) as Hall.
    rewrite Forall_forall in Hall. by apply Hall in Hin.
Qed.

(** The body of the [try] reports neither progress nor failure, opens no
    zip file and creates no folder. *)
Lemma writeEntry_quiet plan file v :
  Forall (λ e, isDocumentCall e = true ∨ isAttachmentCall e = true)
         (events (writeEntry host plan file v)).
Proof.
  destruct (decide (extension file = "html")) as [Hext|Hext].
  - eapply Forall_impl; [by apply writeEntry_html_calls|]. naive_solver.
  - eapply Forall_impl; [by apply writeEntry_other_calls|]. naive_solver.
Qed.

(** The callback of pass 2: it reports progress, runs the [try], and
    reports a failure if and only if the [try] threw; it never throws. *)
Lemma pass2Callback_run plan file current v :
  pass2Callback host plan file current v =
  let o := writeEntry host plan file v in
  {| result := Ok (S current);
     events :=
       EReportProgress (S current) (total plan) :: events o ++
       match result o with
       | Ok _ => []
       | Throw e => [EReportFailed (filepath file) e]
       end;
     vault := vault o |}.
Proof.
  unfold pass2Callback. run_unfold.
  destruct (writeEntry host plan file v) as [[[]|e] ev v']; run_unfold;
    by rewrite ?app_nil_r.
Qed.
End WriteEntry.

(** ** The two passes *)

Section Passes.
Context {V : Type} (host : Host V).
Implicit Types (v : V) (file : ZipEntryFile) (plan : Plan).
Implicit Types (imp : NotionImporter) (trace : list Event).

Lemma filter_all {A} (P : A → Prop) `{∀ x, Decision (P x)} (l : list A) :
  Forall P l → filter P l = l.
Proof.
  induction 1 as [|x l Hx _ IH]; [done|].
  by rewrite filter_cons, decide_True, IH.
Qed.

Lemma filter_none {A} (P : A → Prop) `{∀ x, Decision (P x)} (l : list A) :
  Forall (λ x, ¬ P x) l → filter P l = [].
Proof.
  induction 1 as [|x l Hx _ IH]; [done|].
  by rewrite filter_cons, decide_False, IH.
Qed.

(** *** Events of a loop over zip files *)

(** If the callback's events all satisfy [P], and opening a zip file does,
    so do the events of [processZips]. *)
Lemma processZips_Forall {S} (P : Event → Prop) files
    (callback : ZipEntryFile → S → M V S) s v :
  (∀ zip, P (EReadZip zip)) →
  (∀ file s v, Forall P (events (callback file s v))) →
  Forall P (events (processZips host files callback s v)).
Proof.
  intros Hzip Hcb. revert s v.
  induction files as [|zipFile files IH]; intros s v; [constructor|].
  rewrite processZips_cons. unfold mbind, M_bind, bind.
  assert (Hone : Forall P (events (processZip host zipFile callback s v))).
  { destruct (readZip zipFile) as [entries|e] eqn:Hread.
    - rewrite (processZip_ok _ _ _ _ _ entries) by done. cbn zeta.
      cbn [events]. constructor; [done|].
      rewrite processEntries_filter.
      generalize (filter (passedOn host) entries). clear -Hcb.
      intros l. revert s v.
      induction l as [|x l IH]; intros s v; [constructor|].
      rewrite forEach_cons. unfold mbind, M_bind, bind.
      specialize (Hcb x s v).
      destruct (callback x s v) as [[s'|e] ev v']; cbn [result events] in *;
        [|done].
      apply Forall_app. split; [done|apply IH].
    - rewrite (processZip_throw _ _ _ _ _ e) by done. by repeat constructor. }
  destruct (processZip host zipFile callback s v) as [[s'|e] ev v'];
    cbn [result events] in *; [|done].
  apply Forall_app. split; [done|apply IH].
Qed.

(** Where the events of a loop come from. *)
Lemma forEach_event_origin {A S} (xs : list A) (body : A → S → M V S) s v e :
  e ∈ events (forEach xs body s v) →
  ∃ x s' v', x ∈ xs ∧ e ∈ events (body x s' v').
Proof.
  revert s v. induction xs as [|x xs IH]; intros s v Hin.
  - by apply elem_of_nil in Hin.
  - rewrite forEach_cons in Hin. unfold mbind, M_bind, bind in Hin.
    destruct (result (body x s v)) as [s'|e'] eqn:Hres; cbn [events] in Hin.
    + apply elem_of_app in Hin as [Hin|Hin].
      * exists x, s, v. split; [by left|done].
      * destruct (IH _ _ Hin) as (y & s1 & v1 & Hy & He).
        exists y, s1, v1. split; [by right|done].
    + exists x, s, v. split; [by left|done].
Qed.

(** An event of [processZips] is the opening of one of the zip files, or an
    event of the callback on an entry that is passed on. *)
Lemma processZips_event_origin {S} files
    (callback : ZipEntryFile → S → M V S) s v e :
  e ∈ events (processZips host files callback s v) →
  (∃ zipFile, zipFile ∈ files ∧ e = EReadZip (zipName zipFile))
  ∨ ∃ file s' v',
      file ∈ entriesOf files ∧ passedOn host file
      ∧ e ∈ events (callback file s' v').
Proof.
  revert s v. induction files as [|zipFile files IH]; intros s v Hin.
  - by apply elem_of_nil in Hin.
  - assert (Hrest : ∀ s' v',
      e ∈ events (processZips host files callback s' v') →
      (∃ z, z ∈ zipFile :: files ∧ e = EReadZip (zipName z))
      ∨ ∃ file s1 v1,
          file ∈ entriesOf (zipFile :: files) ∧ passedOn host file
          ∧ e ∈ events (callback file s1 v1)).
    { intros s' v' Hin'. destruct (IH _ _ Hin')
        as [(z & Hz & ->)|(file & s1 & v1 & Hfile & Hpass & He)].
      - left. exists z. split; [by right|done].
      - right. exists file, s1, v1. split; [|done].
        change (entriesOf (zipFile :: files))
          with (match readZip zipFile with
                | Ok entries => entries | Throw _ => [] end
                ++ entriesOf files).
        apply elem_of_app. by right. }
    rewrite processZips_cons in Hin. unfold mbind, M_bind, bind in Hin.
    destruct (readZip zipFile) as [entries|e'] eqn:Hread.
    + rewrite (processZip_ok _ _ _ _ _ entries) in Hin by done.
      cbn zeta in Hin. cbn [result events vault] in Hin.
      assert (Hhere : e ∈ EReadZip (zipName zipFile)
                          :: events (processEntries host entries callback s v) →
        (∃ z, z ∈ zipFile :: files ∧ e = EReadZip (zipName z))
        ∨ ∃ file s1 v1,
            file ∈ entriesOf (zipFile :: files) ∧ passedOn host file
            ∧ e ∈ events (callback file s1 v1)).
      { intros [->|Hin']%elem_of_cons.
        - left. exists zipFile. split; [by left|done].
        - rewrite processEntries_filter in Hin'.
          apply forEach_event_origin in Hin'
            as (file & s1 & v1 & [Hfile Hpass]%list_elem_of_filter & He).
          right. exists file, s1, v1. split; [|done].
          change (entriesOf (zipFile :: files))
            with (match readZip zipFile with
                  | Ok entries => entries | Throw _ => [] end
                  ++ entriesOf files).
          rewrite Hread. apply elem_of_app. by left. }
      destruct (result (processEntries host entries callback s v));
        cbn [events] in Hin; [|by apply Hhere].
      apply elem_of_app in Hin as [Hin|Hin]; [by apply Hhere|].
      by eapply Hrest.
    + rewrite (processZip_throw _ _ _ _ _ e') in Hin by done.
      cbn [result events] in Hin. apply list_elem_of_singleton in Hin as ->.
      left. exists zipFile. split; [by left|done].
Qed.

(** A callback that never throws is stopped only by a zip file that cannot
    be opened. *)
Lemma processZips_readable_ok {S} files
    (callback : ZipEntryFile → S → M V S) s v :
  readable files →
  (∀ file s v, isOk (result (callback file s v)) = true) →
  isOk (result (processZips host files callback s v)) = true.
Proof.
  intros Hfiles Hcb.
  destruct (processZips_forEach host files callback s v Hfiles) as [-> _].
  by apply forEach_total.
Qed.

Lemma processZips_unreadable {S} files
    (callback : ZipEntryFile → S → M V S) s v :
  ¬ readable files →
  (∀ file s v, isOk (result (callback file s v)) = true) →
  ∃ zipFile e trace,
    zipFile ∈ files ∧ readZip zipFile = Throw e
    ∧ result (processZips host files callback s v) = Throw e
    ∧ events (processZips host files callback s v)
      = trace ++ [EReadZip (zipName zipFile)].
Proof.
  intros Hfiles Hcb. revert s v.
  induction files as [|zipFile files IH]; intros s v.
  - destruct Hfiles. constructor.
  - rewrite processZips_cons. unfold mbind, M_bind, bind.
    destruct (readZip zipFile) as [entries|e] eqn:Hread.
    + rewrite (processZip_ok _ _ _ _ _ entries) by done. cbn zeta.
      cbn [result events vault].
      pose proof (forEach_total (filter (passedOn host) entries) callback
                    Hcb s v) as Hok.
      rewrite <- processEntries_filter in Hok.
      destruct (processEntries host entries callback s v)
        as [[s'|e] ev v']; [|done]. cbn [result events vault].
      assert (Hrest : ¬ readable files).
      { intros H. apply Hfiles. constructor; [by rewrite Hread|done]. }
      destruct (IH Hrest s' v') as (z & e & trace & Hin & Hz & Hres & Hev).
      exists z, e, (EReadZip (zipName zipFile) :: ev ++ trace).
      split; [by right|]. split; [done|]. split; [done|].
      rewrite Hev. simpl. by rewrite app_assoc.
    + rewrite (processZip_throw _ _ _ _ _ e) by done. cbn [result events].
      exists zipFile, e, []. split; [by left|]. done.
Qed.

(** With the zip events left out, the events of [processZips] are those of
    the plain loop over the entries that are passed on. *)
Lemma processZips_events {S} files
    (callback : ZipEntryFile → S → M V S) s v :
  readable files →
  (∀ file s v,
     Forall (λ e, isReadZip e = false) (events (callback file s v))) →
  filter (λ e, isReadZip e = false)
    (events (processZips host files callback s v)) =
  events (forEach (filter (passedOn host) (entriesOf files)) callback s v).
Proof.
  intros Hfiles Hcb. revert s v.
  induction Hfiles as [|zipFile files Hzip _ IH]; intros s v; [done|].
  destruct (readZip zipFile) as [entries|] eqn:Hread; [|done].
  change (entriesOf (zipFile :: files))
    with (match readZip zipFile with Ok entries => entries | Throw _ => [] end
          ++ entriesOf files).
  rewrite Hread, filter_app, forEach_app, processZips_cons.
  pose proof (processZip_ok host zipFile callback s v entries Hread) as Hz.
  rewrite processEntries_filter in Hz. cbn zeta in Hz.
  unfold mbind, M_bind, bind. rewrite Hz. cbn [result vault events].
  assert (Hquiet : Forall (λ e, isReadZip e = false)
    (events (forEach (filter (passedOn host) entries) callback s v))).
  { generalize (filter (passedOn host) entries). clear -Hcb.
    intros l. revert s v.
    induction l as [|x l IH]; intros s v; [constructor|].
    rewrite forEach_cons. unfold mbind, M_bind, bind.
    specialize (Hcb x s v).
    destruct (callback x s v) as [[s'|e] ev v']; cbn [result events] in *;
      [|done].
    apply Forall_app. split; [done|apply IH]. }
  destruct (forEach (filter (passedOn host) entries) callback s v)
    as [[s'|e] ev v']; cbn [result vault events] in *.
  - rewrite filter_app, filter_cons, decide_False by done.
    by rewrite IH, filter_all.
  - rewrite filter_cons, decide_False by done. by rewrite filter_all.
Qed.

Lemma processZips_vault {S} files
    (callback : ZipEntryFile → S → M V S) s v :
  (∀ file s v, vault (callback file s v) = v) →
  vault (processZips host files callback s v) = v.
Proof.
  intros Hcb. revert s v.
  induction files as [|zipFile files IH]; intros s v; [done|].
  rewrite processZips_cons. unfold mbind, M_bind, bind.
  assert (Hone : vault (processZip host zipFile callback s v) = v).
  { destruct (readZip zipFile) as [entries|e] eqn:Hread.
    - rewrite (processZip_ok _ _ _ _ _ entries) by done. cbn zeta.
      cbn [vault]. rewrite processEntries_filter.
      generalize (filter (passedOn host) entries). clear -Hcb.
      intros l. revert s v.
      induction l as [|x l IH]; intros s v; [done|].
      rewrite forEach_cons. unfold mbind, M_bind, bind.
      specialize (Hcb x s v).
      destruct (callback x s v) as [[s'|e] ev v']; cbn [result vault] in *;
        [|done].
      rewrite IH. done.
    - by rewrite (processZip_throw _ _ _ _ _ e). }
  destruct (processZip host zipFile callback s v) as [[s'|e] ev v'];
    cbn [result vault] in *; [|done].
  rewrite IH. done.
Qed.

(** *** Pass 1 *)

Lemma pass1Callback_run attachmentFolderPath file maps v :
  pass1Callback host attachmentFolderPath file maps v =
  let p := parseFileInfo host file maps attachmentFolderPath in
  {| result := Ok p.1;
     events := match p.2 with
               | Ok _ => []
               | Throw _ => [EReportSkipped (filepath file)]
               end;
     vault := v |}.
Proof.
  unfold pass1Callback.
  by destruct (parseFileInfo host file maps attachmentFolderPath)
    as [maps' [[]|e]].
Qed.

Lemma forEach_pass1 attachmentFolderPath entries maps v :
  result (forEach entries (pass1Callback host attachmentFolderPath) maps v)
  = Ok (foldl (λ maps file,
                 (parseFileInfo host file maps attachmentFolderPath).1)
          maps entries).
Proof.
  revert maps v. induction entries as [|file entries IH]; intros maps v;
    [done|].
  rewrite forEach_cons. unfold mbind, M_bind, bind.
  rewrite pass1Callback_run. cbn zeta. cbn [result vault]. by rewrite IH.
Qed.

Lemma pass1Callback_events attachmentFolderPath file maps v :
  Forall (λ e, isScanEvent e = true)
    (events (pass1Callback host attachmentFolderPath file maps v)).
Proof.
  rewrite pass1Callback_run. cbn zeta. cbn [events].
  destruct (parseFileInfo host file maps attachmentFolderPath).2;
    by repeat constructor.
Qed.

Lemma pass1_events imp folder v :
  Forall (λ e, isScanEvent e = true) (events (pass1 host imp folder v)).
Proof.
  unfold pass1. run_unfold.
  pose proof (processZips_Forall (λ e, isScanEvent e = true) (files imp)
    (pass1Callback host (default "" (getConfig host v))) noMaps v
    (λ _, eq_refl) (pass1Callback_events _)) as Hall.
  destruct (processZips host (files imp) _ noMaps v) as [[maps|e] ev v'];
    run_unfold; by rewrite ?app_nil_r.
Qed.

Lemma pass1_vault imp folder v : vault (pass1 host imp folder v) = v.
Proof.
  unfold pass1. run_unfold.
  pose proof (processZips_vault (files imp)
    (pass1Callback host (default "" (getConfig host v))) noMaps v) as Hv.
  destruct (processZips host (files imp) _ noMaps v) as [[maps|e] ev v'];
    run_unfold; apply Hv; intros; by rewrite pass1Callback_run.
Qed.

Lemma pass1_readable imp folder v :
  readable (files imp) →
  result (pass1 host imp folder v) = Ok (planOf host imp folder v).
Proof.
  intros Hfiles. unfold pass1. run_unfold.
  pose proof (processZips_forEach host (files imp)
    (pass1Callback host (default "" (getConfig host v))) noMaps v Hfiles)
    as [Hres _].
  rewrite forEach_pass1 in Hres.
  pose proof (processZips_vault (files imp)
    (pass1Callback host (default "" (getConfig host v))) noMaps v) as Hv.
  destruct (processZips host (files imp) _ noMaps v) as [[maps|e] ev v'];
    run_unfold; [|done].
  rewrite Hv by (intros; by rewrite pass1Callback_run).
  by simplify_eq.
Qed.

Lemma pass1_unreadable imp folder v :
  ¬ readable (files imp) →
  ∃ zipFile e trace,
    zipFile ∈ files imp ∧ readZip zipFile = Throw e
    ∧ result (pass1 host imp folder v) = Throw e
    ∧ events (pass1 host imp folder v)
      = trace ++ [EReadZip (zipName zipFile)].
Proof.
  intros Hfiles. unfold pass1. run_unfold.
  destruct (processZips_unreadable (files imp)
    (pass1Callback host (default "" (getConfig host v))) noMaps v Hfiles)
    as (zipFile & e & trace & Hin & Hz & Hres & Hev).
  { intros. by rewrite pass1Callback_run. }
  exists zipFile, e, trace. split; [done|]. split; [done|].
  destruct (processZips host (files imp) _ noMaps v) as [[maps|e'] ev v'];
    run_unfold; [done|]. by simplify_eq.
Qed.

(** *** Creating the folders *)

Lemma createAllFolders_run plan v :
  ∃ created,
    events (createAllFolders host plan v) = ECreateFolders <$> created
    ∧ created `prefix_of` flatFolderPaths host plan
    ∧ (isOk (result (createAllFolders host plan v)) = true →
       created = flatFolderPaths host plan)
    ∧ (∀ e, result (createAllFolders host plan v) = Throw e →
       ∃ before path, created = before ++ [path]).
Proof.
  unfold createAllFolders. generalize (flatFolderPaths host plan). intros l.
  revert v. generalize tt.
  induction l as [|path l IH]; intros u v.
  - exists []. split; [done|]. split; [done|]. split; [done|]. done.
  - rewrite forEach_cons. run_unfold.
    destruct (createFolders host path v) as [[u'|e] v1]; run_unfold.
    + destruct (IH u' v1) as (created & Hev & Hpre & Hok & Hthrow).
      exists (path :: created). rewrite Hev.
      destruct (forEach l _ u' v1) as [[u''|e] ev v2]; run_unfold.
      * split; [done|]. split; [by apply prefix_cons|].
        split; [intros _; f_equal; by apply Hok|done].
      * split; [done|]. split; [by apply prefix_cons|]. split; [done|].
        intros e' _. destruct (Hthrow e eq_refl) as (before & p & ->).
        by exists (path :: before), p.
    + exists [path]. split; [done|].
      split; [apply prefix_cons, prefix_nil|]. split; [done|].
      intros e' _. by exists [], path.
Qed.

(** *** Pass 2 *)

Lemma entry_event_kinds e :
  isEntryEvent e = true →
  isReadZip e = false ∧ isCreateFolders e = false ∧ isScanEvent e = false.
Proof. by destruct e. Qed.

Lemma write_is_entry_event e : isWrite e = true → isEntryEvent e = true.
Proof. by destruct e. Qed.

Lemma scan_event_kinds e :
  isScanEvent e = true →
  isWrite e = false ∧ isCreateFolders e = false ∧ isEntryEvent e = false.
Proof. by destruct e. Qed.

Lemma pass2Callback_events plan file current v :
  Forall (λ e, isEntryEvent e = true)
    (events (pass2Callback host plan file current v)).
Proof.
  rewrite pass2Callback_run. cbn zeta. cbn [events].
  constructor; [done|]. apply Forall_app. split.
  - eapply Forall_impl; [apply writeEntry_quiet|].
    intros e. unfold isEntryEvent. intros [->| ->]; by rewrite ?orb_true_r.
  - destruct (result (writeEntry host plan file v)); by repeat constructor.
Qed.

Lemma writeEntry_no_progress plan file v :
  filter (λ e, isReportProgress e = true)
    (events (writeEntry host plan file v)) = [].
Proof.
  apply filter_none. eapply Forall_impl; [apply writeEntry_quiet|].
  intros e He. by destruct e, He.
Qed.


Lemma forEach_pass2 plan entries current v :
  result (forEach entries (pass2Callback host plan) current v)
    = Ok (current + length entries)%nat
  ∧ filter (λ e, isReportProgress e = true)
      (events (forEach entries (pass2Callback host plan) current v))
    = (λ i, EReportProgress i (total plan))
        <$> seq (S current) (length entries).
Proof.
  revert current v.
  induction entries as [|file entries IH]; intros current v.
  - split; [simpl; f_equal; lia|done].
  - rewrite forEach_cons. unfold mbind, M_bind, bind.
    rewrite pass2Callback_run. cbn zeta. cbn [result events vault].
    destruct (IH (S current) (vault (writeEntry host plan file v)))
      as [Hres Hev].
    rewrite Hres. split; [simpl; f_equal; lia|].
    simpl. rewrite filter_cons, decide_True by done.
    rewrite !filter_app, writeEntry_no_progress, Hev. simpl. f_equal.
    by destruct (result (writeEntry host plan file v)).
Qed.

Lemma pass2_run imp plan v :
  readable (files imp) →
  result (pass2 host imp plan v) = Ok tt
  ∧ Forall (λ e, isReadZip e = true ∨ isEntryEvent e = true)
      (events (pass2 host imp plan v))
  ∧ filter (λ e, isReadZip e = false) (events (pass2 host imp plan v))
    = events (forEach (filter (passedOn host) (entriesOf (files imp)))
                (pass2Callback host plan) 0%nat v).
Proof.
  intros Hfiles. unfold pass2. run_unfold.
  pose proof (processZips_readable_ok (files imp) (pass2Callback host plan)
    0%nat v Hfiles) as Hok.
  pose proof (processZips_Forall
    (λ e, isReadZip e = true ∨ isEntryEvent e = true) (files imp)
    (pass2Callback host plan) 0%nat v) as Hall.
  pose proof (processZips_events (files imp) (pass2Callback host plan)
    0%nat v Hfiles) as Hev.
  destruct (processZips host (files imp) (pass2Callback host plan) 0%nat v)
    as [[n|e] ev v']; run_unfold.
  - rewrite app_nil_r. split; [done|]. split.
    + apply Hall; [by left|]. intros file s v0.
      eapply Forall_impl; [apply pass2Callback_events|]. naive_solver.
    + apply Hev. intros file s v0.
      eapply Forall_impl; [apply pass2Callback_events|].
      intros e He. by apply entry_event_kinds in He as (? & _).
  - exfalso. cut (false = true); [done|]. apply Hok.
    intros. by rewrite pass2Callback_run.
Qed.

(** *** The whole run *)

Lemma import_no_files imp v :
  files imp = [] →
  import host imp v =
  {| result := Ok tt;
     events := [ENotice "Please pick at least one file to import."];
     vault := v |}.
Proof. intros Hfiles. unfold import. by rewrite Hfiles. Qed.

Lemma import_no_folder imp v :
  files imp ≠ [] →
  getOutputFolder host v = None →
  import host imp v =
  {| result := Ok tt;
     events := [ENotice "Please select a location to export to."];
     vault := v |}.
Proof.
  intros Hfiles Hfolder. unfold import.
  destruct (files imp); [done|]. simpl. run_unfold. by rewrite Hfolder.
Qed.

Lemma import_started imp v folder :
  files imp ≠ [] →
  getOutputFolder host v = Some folder →
  import host imp v =
  (plan ← pass1 host imp folder;
   createAllFolders host plan;; pass2 host imp plan) v.
Proof.
  intros Hfiles Hfolder. unfold import.
  destruct (files imp) eqn:Hf; [done|]. simpl.
  by rewrite bind_getVault, Hfolder.
Qed.

(** A zip file that cannot be opened ends the run in pass 1. *)
Lemma import_unreadable imp v folder :
  files imp ≠ [] →
  getOutputFolder host v = Some folder →
  ¬ readable (files imp) →
  ∃ zipFile e trace,
    zipFile ∈ files imp ∧ readZip zipFile = Throw e
    ∧ result (import host imp v) = Throw e
    ∧ events (import host imp v) = trace ++ [EReadZip (zipName zipFile)]
    ∧ Forall (λ e, isScanEvent e = true) (events (import host imp v)).
Proof.
  intros Hfiles Hfolder Hread. rewrite (import_started _ _ folder) by done.
  destruct (pass1_unreadable imp folder v Hread)
    as (zipFile & e & trace & Hin & Hz & Hres & Hev).
  pose proof (pass1_events imp folder v) as Hscan.
  exists zipFile, e, trace. split; [done|]. split; [done|].
  by rewrite (bind_throw _ _ _ e).
Qed.

(** A [createFolders] that throws ends the run before pass 2. *)
Lemma import_folders_throw imp v folder e :
  files imp ≠ [] →
  getOutputFolder host v = Some folder →
  readable (files imp) →
  result (createAllFolders host (planOf host imp folder v) v) = Throw e →
  result (import host imp v) = Throw e
  ∧ events (import host imp v) =
    events (pass1 host imp folder v) ++
    events (createAllFolders host (planOf host imp folder v) v).
Proof.
  intros Hfiles Hfolder Hread Hcreate.
  rewrite (import_started _ _ folder) by done.
  rewrite (bind_ok _ _ _ _ (pass1_readable imp folder v Hread)).
  cbn [result events]. rewrite pass1_vault.
  by rewrite (bind_throw _ _ _ e).
Qed.

(** Otherwise the run goes through pass 2 and returns. *)
Lemma import_complete imp v folder :
  files imp ≠ [] →
  getOutputFolder host v = Some folder →
  readable (files imp) →
  isOk (result (createAllFolders host (planOf host imp folder v) v)) = true →
  let plan := planOf host imp folder v in
  result (import host imp v) = Ok tt
  ∧ events (import host imp v) =
    events (pass1 host imp folder v) ++
    (ECreateFolders <$> flatFolderPaths host plan) ++
    events (pass2 host imp plan (vault (createAllFolders host plan v))).
Proof.
  intros Hfiles Hfolder Hread Hcreate plan.
  rewrite (import_started _ _ folder) by done.
  rewrite (bind_ok _ _ _ _ (pass1_readable imp folder v Hread)).
  cbn [result events]. rewrite pass1_vault. fold plan. fold plan in Hcreate.
  destruct (createAllFolders_run plan v) as (created & Hev & _ & Hall & _).
  specialize (Hall Hcreate). subst created.
  destruct (result (createAllFolders host plan v)) as [[]|] eqn:Hres; [|done].
  rewrite (bind_ok _ _ _ tt Hres). cbn [result events].
  destruct (pass2_run imp plan (vault (createAllFolders host plan v)) Hread)
    as (Hres2 & _).
  by rewrite Hres2, Hev.
Qed.
End Passes.

(** ** The shape of a run *)

Section Trace.
Context {V : Type} (host : Host V).
Implicit Types (v : V) (file : ZipEntryFile) (plan : Plan).
Implicit Types (imp : NotionImporter) (trace : list Event).






Lemma createdFolders_none trace :
  Forall (λ e, isCreateFolders e = false) trace → createdFolders trace = [].
Proof.
  induction 1 as [|e trace He _ IH]; [done|].
  destruct e; try discriminate He; exact IH.
Qed.


(** A run that gets past the two checks opens the zip files, creates
    folders, and works on the entries, in this order. *)
Lemma import_trace imp v folder :
  files imp ≠ [] →
  getOutputFolder host v = Some folder →
  let plan := planOf host imp folder v in
  ∃ scan created entryEvents,
    events (import host imp v)
      = scan ++ (ECreateFolders <$> created) ++ entryEvents
    ∧ Forall (λ e, isScanEvent e = true) scan
    ∧ Forall (λ e, isReadZip e = true ∨ isEntryEvent e = true) entryEvents
    ∧ created `prefix_of` flatFolderPaths host plan
    ∧ (entryEvents ≠ [] ∨ isOk (result (import host imp v)) = true →
       created = flatFolderPaths host plan
       ∧ result (import host imp v) = Ok tt
       ∧ readable (files imp)
       ∧ entryEvents =
           events (pass2 host imp plan
                     (vault (createAllFolders host plan v)))
       ∧ result (createAllFolders host plan v) = Ok tt).
Proof.
  intros Hfiles Hfolder plan.
  destruct (decide (readable (files imp))) as [Hread|Hread].
  - destruct (createAllFolders_run host plan v)
      as (created & Hev & Hpre & Hall & _).
    destruct (result (createAllFolders host plan v)) as [[]|e] eqn:Hres.
    + pose proof (import_complete host imp v folder Hfiles Hfolder Hread)
        as Hc. cbn zeta in Hc. fold plan in Hc. rewrite Hres in Hc.
      destruct (Hc eq_refl) as [Hok Htrace].
      exists (events (pass1 host imp folder v)), (flatFolderPaths host plan),
        (events (pass2 host imp plan (vault (createAllFolders host plan v)))).
      split; [done|]. split; [apply pass1_events|].
      split; [by apply pass2_run|]. split; [done|]. done.
    + pose proof (import_folders_throw host imp v folder e Hfiles Hfolder
                    Hread) as Hc. fold plan in Hc.
      destruct (Hc Hres) as [Hthrow Htrace].
      exists (events (pass1 host imp folder v)), created, [].
      rewrite app_nil_r, Htrace. fold plan. rewrite Hev.
      split; [done|]. split; [apply pass1_events|].
      split; [constructor|]. split; [done|].
      rewrite Hthrow. by intros [?|?].
  - destruct (import_unreadable host imp v folder)
      as (zipFile & e & trace & Hin & Hz & Hres & Hev & Hscan); [done..|].
    exists (events (import host imp v)), [], [].
    rewrite !app_nil_r. split; [done|]. split; [done|].
    split; [constructor|]. split; [apply prefix_nil|].
    rewrite Hres. by intros [?|?].
Qed.
End Trace.

(** * The claims about the importer *)

Section EntryClaims.
Context {V : Type} (host : Host V).
Implicit Types (v : V) (file : ZipEntryFile) (plan : Plan).
Implicit Types (imp : NotionImporter) (trace : list Event).


End EntryClaims.

Section RunClaims.
Context {V : Type} (host : Host V).
Implicit Types (v : V) (file : ZipEntryFile) (plan : Plan).
Implicit Types (imp : NotionImporter) (trace : list Event).

(** C8.  In both passes the entries go through [processZips], which hands
    an entry to the callback if and only if it is not a database export; an
    entry is a database export exactly when its file path ends in ".csv"
    and [getNotionId] finds an id in the file path.  So an entry in whose
    path no id is found is handed on, never skipped.  Pass 1 thus parses,
    and pass 2 works on, exactly the entries that are not database
    exports. *)
Theorem processZips_skips_exactly_database_csv :
  (∀ filename,
     isDatabaseCSV host filename = true ↔
     endsWith filename ".csv" = true ∧ is_Some (getNotionId host filename))
  ∧ (∀ S entries (callback : ZipEntryFile → S → M V S) s v,
       processEntries host entries callback s v =
       forEach (filter (passedOn host) entries) callback s v)
  ∧ (∀ S files (callback : ZipEntryFile → S → M V S) s v,
       readable files →
       result (processZips host files callback s v) =
         result (forEach (filter (passedOn host) (entriesOf files))
                   callback s v)
       ∧ vault (processZips host files callback s v) =
         vault (forEach (filter (passedOn host) (entriesOf files))
                   callback s v))
  ∧ (∀ files v,
       readable files →
       ∃ seen,
         result (processZips host files remember [] v) = Ok seen
         ∧ ∀ file,
             file ∈ seen ↔
             file ∈ entriesOf files
             ∧ ¬ (endsWith (filepath file) ".csv" = true
                  ∧ is_Some (getNotionId host (filepath file))))
  ∧ (∀ files v file,
       readable files →
       file ∈ entriesOf files →
       getNotionId host (filepath file) = None →
       ∃ seen,
         result (processZips host files remember [] v) = Ok seen
         ∧ file ∈ seen)
  ∧ (∀ imp attachmentFolderPath plan v,
       readable (files imp) →
       result (processZips host (files imp)
                 (pass1Callback host attachmentFolderPath) noMaps v)
       = Ok (foldl (λ maps file,
                      (parseFileInfo host file maps attachmentFolderPath).1)
               noMaps (filter (passedOn host) (entriesOf (files imp))))
       ∧ filter (λ e, isReadZip e = false) (events (pass2 host imp plan v))
         = events (forEach (filter (passedOn host) (entriesOf (files imp)))
                     (pass2Callback host plan) 0 v)).
Proof.
  assert (Hseen : ∀ files v file,
    readable files →
    ∃ seen,
      result (processZips host files remember [] v) = Ok seen
      ∧ (file ∈ seen ↔
         file ∈ entriesOf files
         ∧ ¬ (endsWith (filepath file) ".csv" = true
              ∧ is_Some (getNotionId host (filepath file))))).
  { intros files v file Hfiles. eexists. split.
    - by apply (processZips_remember host).
    - rewrite app_nil_l, list_elem_of_filter. unfold passedOn.
      rewrite <- (isDatabaseCSV_spec host), not_true_iff_false. tauto. }
  split; [apply (isDatabaseCSV_spec host)|].
  split; [intros; apply (processEntries_filter host)|].
  split; [intros; by apply (processZips_forEach host)|].
  split; [|split].
  - intros files v Hfiles. eexists. split.
    + by apply (processZips_remember host).
    + intros file. rewrite app_nil_l, list_elem_of_filter. unfold passedOn.
      rewrite <- (isDatabaseCSV_spec host), not_true_iff_false. tauto.
  - intros files v file Hfiles Hin Hid.
    destruct (Hseen files v file Hfiles) as (seen & Hres & Hiff).
    exists seen. split; [done|]. apply Hiff. split; [done|].
    intros [_ [id Hsome]]. congruence.
  - intros imp attachmentFolderPath plan v Hfiles. split.
    + destruct (processZips_forEach host (files imp)
                  (pass1Callback host attachmentFolderPath) noMaps v Hfiles)
        as [-> _].
      apply forEach_pass1.
    + by apply pass2_run.
Qed.

(** The progress reports of a run that returns. *)
Lemma import_progress imp v folder :
  files imp ≠ [] →
  getOutputFolder host v = Some folder →
  isOk (result (import host imp v)) = true →
  filter (λ e, isReportProgress e = true) (events (import host imp v))
  = (λ current,
       EReportProgress current
         (size (idsToFileInfo (scanned host imp v))
          + size (pathsToAttachmentInfo (scanned host imp v))))
    <$> seq 1 (length (filter (passedOn host) (entriesOf (files imp)))).
Proof.
  intros Hfiles Hfolder Hok.
  change (size (idsToFileInfo (scanned host imp v))
          + size (pathsToAttachmentInfo (scanned host imp v)))
    with (total (planOf host imp folder v)).
  destruct (import_trace host imp v folder Hfiles Hfolder)
    as (scan & created & entryEvents & Htrace & Hscan & Hentries & Hpre
        & Hbegun).
  destruct (Hbegun (or_intror Hok)) as (-> & _ & Hread & Hpass2 & _).
  rewrite Htrace, !filter_app.
  rewrite (filter_none _ scan), (filter_none _ (ECreateFolders <$> _)).
  - rewrite !app_nil_l.
    destruct (pass2_run host imp (planOf host imp folder v)
                (vault (createAllFolders host (planOf host imp folder v) v))
                Hread) as (_ & _ & Hquiet).
    rewrite <- Hpass2 in Hquiet.
    destruct (forEach_pass2 host (planOf host imp folder v)
                (filter (passedOn host) (entriesOf (files imp))) 0
                (vault (createAllFolders host (planOf host imp folder v) v)))
      as [_ Hprogress].
    rewrite <- Hquiet in Hprogress. rewrite <- Hprogress.
    rewrite list_filter_filter. apply list_filter_iff.
    intros e. split; [|naive_solver]. intros He. split; [done|].
    by destruct e.
  - apply Forall_fmap. by apply Forall_true.
  - eapply Forall_impl; [done|]. intros e He. by destruct e.
Qed.

(** Every file created in pass 2 is created for an entry with extension
    "html", at the path of the document that the id in its name stands
    for. *)
Lemma pass2_creates imp plan v path data :
  EVaultCreate path data ∈ events (pass2 host imp plan v) →
  ∃ file id fileInfo,
    file ∈ entriesOf (files imp)
    ∧ extension file = "html"
    ∧ getNotionId host (name file) = Some id
    ∧ idsToFileInfo (planned plan) !! id = Some fileInfo
    ∧ path = documentPath host plan fileInfo.
Proof.
  intros Hin.
  assert (Hin' : EVaultCreate path data
                 ∈ events (processZips host (files imp)
                             (pass2Callback host plan) 0 v)).
  { revert Hin. unfold pass2. run_unfold.
    destruct (processZips host (files imp) (pass2Callback host plan) 0 v)
      as [[n|e] ev v']; cbn [result events]; by rewrite ?app_nil_r. }
  apply processZips_event_origin in Hin'
    as [(z & _ & ?)|(file & current & v' & Hfile & _ & He)]; [done|].
  rewrite pass2Callback_run in He. cbn zeta in He. cbn [events] in He.
  apply elem_of_cons in He as [?|He]; [done|].
  apply elem_of_app in He as [He|He].
  - apply writeEntry_creates in He as (? & id & fileInfo & ? & ? & ?).
    by exists file, id, fileInfo.
  - destruct (result (writeEntry host _ file v')).
    + by apply elem_of_nil in He.
    + by apply list_elem_of_singleton in He.
Qed.

Lemma import_creates imp v path data :
  EVaultCreate path data ∈ events (import host imp v) →
  ∃ folder file id fileInfo,
    getOutputFolder host v = Some folder
    ∧ file ∈ entriesOf (files imp)
    ∧ extension file = "html"
    ∧ getNotionId host (name file) = Some id
    ∧ idsToFileInfo (planned (planOf host imp folder v)) !! id
      = Some fileInfo
    ∧ path = documentPath host (planOf host imp folder v) fileInfo.
Proof.
  intros Hin.
  destruct (decide (files imp = [])) as [Hfiles|Hfiles].
  { rewrite import_no_files in Hin by done.
    by apply list_elem_of_singleton in Hin. }
  destruct (getOutputFolder host v) as [folder|] eqn:Hfolder; cycle 1.
  { rewrite import_no_folder in Hin by done.
    by apply list_elem_of_singleton in Hin. }
  exists folder.
  destruct (import_trace host imp v folder Hfiles Hfolder)
    as (scan & created & entryEvents & Htrace & Hscan & Hentries & Hpre
        & Hbegun).
  rewrite Htrace in Hin.
  apply elem_of_app in Hin as [Hin|Hin].
  { rewrite Forall_forall in Hscan. by apply Hscan in Hin. }
  apply elem_of_app in Hin as [Hin|Hin].
  { by apply list_elem_of_fmap in Hin as (p & ? & _). }
  assert (HentryEvents : entryEvents ≠ []) by (by intros ->; inversion Hin).
  destruct (Hbegun (or_introl HentryEvents)) as (_ & _ & _ & Hpass2 & _).
  subst entryEvents.
  apply pass2_creates in Hin as (file & id & fileInfo & ? & ? & ? & ? & ?).
  by exists file, id, fileInfo.
Qed.

(** C5.  Every document written in pass 2 is created at the path made of
    the target folder, which ends in a slash, the segments that
    [assembleParentIds] returns for the document, joined in their order,
    the title of the document, and ".md"; the document is the one that the
    id in the name of the entry stands for. *)
Theorem document_path_is_folder_segments_title_md imp v path data :
  EVaultCreate path data ∈ events (import host imp v) →
  ∃ folder file id fileInfo,
    getOutputFolder host v = Some folder
    ∧ file ∈ entriesOf (files imp)
    ∧ extension file = "html"
    ∧ getNotionId host (name file) = Some id
    ∧ let plan := planOf host imp folder v in
      let root := normalizePath host (folder_path folder) in
      idsToFileInfo (planned plan) !! id = Some fileInfo
      ∧ targetFolderPath plan
        = (if endsWith root "/" then root else root +:+ "/")
      ∧ endsWith (targetFolderPath plan) "/" = true
      ∧ path
        = targetFolderPath plan
          +:+ join (assembleParentIds host fileInfo
                      (idsToFileInfo (planned plan)))
          +:+ title fileInfo +:+ ".md".
Proof.
  intros Hin.
  destruct (import_creates imp v path data Hin)
    as (folder & file & id & fileInfo & Hfolder & Hfile & Hext & Hid & Hinfo
        & ->).
  exists folder, file, id, fileInfo.
  split; [done|]. split; [done|]. split; [done|]. split; [done|]. cbn zeta.
  split; [done|]. split; [done|]. split.
  - cbn [planOf targetFolderPath]. unfold targetFolderPathOf.
    destruct (endsWith (normalizePath host (folder_path folder)) "/")
      eqn:Hends; [done|apply endsWith_append].
  - unfold documentPath, documentFolder. apply append_assoc.
Qed.

(** The folders of [allFolderPaths] are the folders of the destination
    paths: where a folder path ends in a slash and the title or name has
    none, the path built from them lies in that folder. *)
Lemma planned_folders_are_folder_parts plan :
  (∀ fileInfo,
     endsWith (documentFolder host plan fileInfo) "/" = true →
     containsSlash (title fileInfo) = false →
     folderPart (documentPath host plan fileInfo)
     = documentFolder host plan fileInfo)
  ∧ (∀ attachmentInfo,
       endsWith (targetParentFolder attachmentInfo) "/" = true →
       containsSlash (nameWithExtension attachmentInfo) = false →
       folderPart (targetParentFolder attachmentInfo
                   +:+ nameWithExtension attachmentInfo)
       = targetParentFolder attachmentInfo).
Proof.
  split.
  - intros fileInfo Hfolder Htitle. unfold documentPath.
    apply folderPart_append; [done|].
    by rewrite containsSlash_append, Htitle.
  - intros attachmentInfo Hfolder Hname. by apply folderPart_append.
Qed.


End RunClaims.

(** * The claims about the helpers, on their models after the specification *)

Section Hierarchy.
Implicit Types (allDocuments : gmap string NotionFileInfo).
Implicit Types (visited : gset string) (parent : option string).
Implicit Types (ancestors : list (string * string)).

(** The walk ends as soon as the fuel exceeds the number of documents that
    have not been visited; every id contributes at most once; and the ids
    that contribute are those met along the parent ids, up to the first
    that is missing, visited, or not in the map. *)
Lemma walkParents_ends fuel allDocuments visited parent ancestors :
  size (dom allDocuments ∖ visited) < fuel →
  ∃ found,
    Spec.walkParents fuel allDocuments visited parent ancestors
      = Some (found ++ ancestors)
    ∧ NoDup found.*1
    ∧ (∀ id, id ∈ found.*1 → id ∉ visited)
    ∧ length found ≤ size (dom allDocuments ∖ visited)
    ∧ (∀ id segment,
         (id, segment) ∈ found →
         ∃ info, allDocuments !! id = Some info
                 ∧ segment = Spec.folderSegment info)
    ∧ ∃ stop,
        Spec.followed allDocuments parent (reverse found.*1) stop
        ∧ (stop = None
           ∨ ∃ id, stop = Some id
                   ∧ (id ∈ visited ∨ id ∈ found.*1
                      ∨ allDocuments !! id = None)).
Proof.
  revert visited parent ancestors.
  induction fuel as [|fuel IH]; intros visited parent ancestors Hfuel;
    [lia|].
  assert (Hstop :
    parent = None
    ∨ (∃ id, parent = Some id ∧ (id ∈ visited ∨ allDocuments !! id = None)) →
    ∃ found,
    Some ancestors = Some (found ++ ancestors)
    ∧ NoDup found.*1
    ∧ (∀ id, id ∈ found.*1 → id ∉ visited)
    ∧ length found ≤ size (dom allDocuments ∖ visited)
    ∧ (∀ id segment,
         (id, segment) ∈ found →
         ∃ info, allDocuments !! id = Some info
                 ∧ segment = Spec.folderSegment info)
    ∧ ∃ stop,
        Spec.followed allDocuments parent (reverse found.*1) stop
        ∧ (stop = None
           ∨ ∃ id, stop = Some id
                   ∧ (id ∈ visited ∨ id ∈ found.*1
                      ∨ allDocuments !! id = None))).
  { intros Hwhy. exists []. split; [done|]. split; [constructor|].
    split; [by intros id ?%elem_of_nil|]. split; [simpl; lia|].
    split; [by intros id segment ?%elem_of_nil|].
    exists parent. split; [done|]. destruct Hwhy as [?|(id & ? & [?|?])];
      [by left|right; exists id; auto..]. }
  simpl. destruct parent as [parentId|]; [|by apply Hstop; left].
  case_decide as Hvisited; [apply Hstop; right; by eauto|].
  destruct (allDocuments !! parentId) as [info|] eqn:Hinfo;
    [|apply Hstop; right; by eauto].
  assert (Hsize : size (dom allDocuments ∖ visited)
                  = S (size (dom allDocuments ∖ ({[parentId]} ∪ visited)))).
  { assert (Hin : parentId ∈ dom allDocuments) by (by apply elem_of_dom).
    replace (dom allDocuments ∖ visited)
      with ({[parentId]} ∪ dom allDocuments ∖ ({[parentId]} ∪ visited)).
    - rewrite size_union by set_solver. by rewrite size_singleton.
    - apply set_eq. intros x.
      destruct (decide (x = parentId)) as [->|]; set_solver. }
  destruct (IH ({[parentId]} ∪ visited) (doc_parent info)
              ((parentId, Spec.folderSegment info) :: ancestors))
    as (found & Hwalk & Hnodup & Hfresh & Hlen & Hsegments & stop & Hchain
        & Hend); [lia|].
  exists (found ++ [(parentId, Spec.folderSegment info)]).
  split; [by rewrite <- app_assoc|]. split; [|split; [|split; [|split]]].
  - rewrite fmap_app. apply NoDup_app. split; [done|].
    split; [|apply NoDup_singleton].
    intros id Hid ->%list_elem_of_singleton. apply Hfresh in Hid.
    set_solver.
  - intros id. rewrite fmap_app, elem_of_app.
    intros [Hid| ->%list_elem_of_singleton]; [|done].
    apply Hfresh in Hid. set_solver.
  - rewrite length_app. simpl. lia.
  - intros id segment [Hin|Hin%list_elem_of_singleton]%elem_of_app.
    + by apply Hsegments.
    + simplify_eq. by exists info.
  - exists stop. rewrite fmap_app, reverse_app. simpl. split.
    + split; [done|]. by exists info.
    + destruct Hend as [?|(id & ? & Hwhy)]; [by left|].
      right. exists id. split; [done|]. rewrite elem_of_app.
      destruct Hwhy as [Hin|[?|?]]; [|by auto..].
      apply elem_of_union in Hin as [->%elem_of_singleton|?]; [|by auto].
      right. left. right. by left.
Qed.

(** C2.  For every map from ids to documents, cyclic or not, the walk of
    [assembleParentIds] ends within one step more than there are documents,
    and returns finitely many segments of which no two come from the same
    id: each is the folder segment of a different document of the map,
    none of them the document the walk started at.  The documents are those
    met along the parent ids, the outermost first, up to the first parent id
    that is missing, has been met before, or is not in the map. *)
Theorem assembleParentIds_ends_without_repeating
    (document : NotionFileInfo) allDocuments :
  ∃ ancestors,
    Spec.ancestorsOf document allDocuments = Some ancestors
    ∧ Spec.assembleParentIds document allDocuments = ancestors.*2
    ∧ NoDup ancestors.*1
    ∧ (doc_id document ∉ ancestors.*1)
    ∧ length (Spec.assembleParentIds document allDocuments)
      ≤ size allDocuments
    ∧ (∀ id segment,
         (id, segment) ∈ ancestors →
         ∃ info, allDocuments !! id = Some info
                 ∧ segment = Spec.folderSegment info)
    ∧ ∃ stop,
        Spec.followed allDocuments (doc_parent document)
          (reverse ancestors.*1) stop
        ∧ (stop = None
           ∨ ∃ id, stop = Some id
                   ∧ (id = doc_id document ∨ id ∈ ancestors.*1
                      ∨ allDocuments !! id = None)).
Proof.
  assert (Hbound : size (dom allDocuments ∖ {[doc_id document]})
                   ≤ size allDocuments).
  { rewrite <- size_dom. apply subseteq_size. set_solver. }
  destruct (walkParents_ends (S (size allDocuments)) allDocuments
              {[doc_id document]} (doc_parent document) [])
    as (found & Hwalk & Hnodup & Hfresh & Hlen & Hsegments & stop & Hchain
        & Hend); [lia|].
  rewrite app_nil_r in Hwalk. exists found.
  unfold Spec.assembleParentIds, Spec.ancestorsOf. rewrite Hwalk.
  split; [done|]. split; [done|]. split; [done|].
  split; [intros Hin; apply Hfresh in Hin; set_solver|].
  split; [simpl; rewrite length_fmap; lia|]. split; [done|].
  exists stop. split; [done|].
  destruct Hend as [?|(id & ? & Hwhy)]; [by left|].
  right. exists id. split; [done|].
  destruct Hwhy as [->%elem_of_singleton|[?|?]]; auto.
Qed.
End Hierarchy.

Section DedupeFacts.
Context {A C : Type} `{EqDecision C}.
Variable class : string → A → C.
Variable bytes : A → nat.
Implicit Types (m : gmap string A) (k : string) (a : A).

Local Abbreviation dedupe := (Spec.dedupe class bytes).
Local Abbreviation retained := (Spec.retained class bytes).





End DedupeFacts.

Section Resolver.
Variable canonical : string → string.
Implicit Types (ids : gmap string NotionFileInfo) (id : string).
Implicit Types (paths : gmap string NotionAttachmentInfo).

Local Abbreviation retainedDocuments := (Spec.retainedDocuments canonical).
Local Abbreviation retainedId := (Spec.retainedId canonical).
Local Abbreviation resolveDocuments := (Spec.resolveDocuments canonical).









End Resolver.

(** C10.  In pass 2 progress is reported once for every entry that is passed
    on, before the entry is worked on.  The total reported is the number of
    keys of [idsToFileInfo] plus the number of keys of
    [pathsToAttachmentInfo] as pass 1 has left them, before duplicates are
    resolved, and it stays the same; the current count is the number of
    entries met so far.  So the count can exceed the total: it does for an
    export picked twice, whose entries share their document ids. *)
Theorem progress_counts_entries_against_scanned_keys :
  (∀ V (host : Host V) plan file current (v : V),
     events (pass2Callback host plan file current v)
     = EReportProgress (S current) (total plan)
       :: events (writeEntry host plan file v)
       ++ match result (writeEntry host plan file v) with
          | Ok _ => []
          | Throw e => [EReportFailed (filepath file) e]
          end
     ∧ filter (λ e, isReportProgress e = true)
         (events (writeEntry host plan file v)) = []
     ∧ result (pass2Callback host plan file current v) = Ok (S current))
  ∧ (∀ V (host : Host V) imp (v : V) folder,
       files imp ≠ [] →
       getOutputFolder host v = Some folder →
       isOk (result (import host imp v)) = true →
       filter (λ e, isReportProgress e = true) (events (import host imp v))
       = (λ current,
            EReportProgress current
              (size (idsToFileInfo (scanned host imp v))
               + size (pathsToAttachmentInfo (scanned host imp v))))
         <$> seq 1 (length (filter (passedOn host) (entriesOf (files imp)))))
  ∧ (∃ current total,
       EReportProgress current total
       ∈ events (import Demo.host
                   (Demo.importer [Demo.export; Demo.exportAgain])
                   Demo.emptyVault)
       ∧ total < current).
Proof.
  split; [|split].
  - intros V host plan file current v. rewrite pass2Callback_run.
    split; [done|]. split; [apply writeEntry_no_progress|done].
  - intros V host imp v folder. apply import_progress.
  - exists 4, 3. split; [|lia]. vm_compute. do 18 right. left.
Qed.

(** * The statements at work on the archive of [Demo] *)

Section Instances.
Import Demo.

(** The scenario of the specification: a page "Root" and a page "Child"
    below it are written to "Root.md" and "Root/Child.md" in the target
    folder. *)
Example import_of_the_export :
  import host (importer [export]) emptyVault
  = {| result := Ok tt;
       events :=
         [EReadZip "export.zip";
          ECreateFolders "Notion/"; ECreateFolders "Notion/Root/";
          EReadZip "export.zip"] ++ exportEntryCalls;
       vault :=
         addFile "Notion/picture.png"
           (addFile "Notion/Root/Child.md"
              (addFile "Notion/Root.md"
                 (addFolder "Notion/Root/"
                    (addFolder "Notion/" emptyVault)))) |}.
Proof. by vm_compute. Qed.

(** Of a document exported twice the larger copy is retained, and the
    page below the discarded copy is put below the retained one. *)
Example cleanDuplicates_of_a_page_exported_twice :
  idsToFileInfo (Spec.cleanDuplicates canonical exportedTwice "" "Notion/" false)
  = {[ "abcd" := large;
       "ef01" := {| title := "Below"; doc_id := "ef01";
                    doc_parent := Some "abcd";
                    doc_path := "Page ABCD/Below ef01.html";
                    doc_size := 7 |} ]}.
Proof. by vm_compute. Qed.

(** C2 on two documents that are each other's parent. *)
Lemma assembleParentIds_ends_without_repeating_witness :
  Spec.assembleParentIds pageA cyclic = ["B/"]
  ∧ ∃ ancestors,
      Spec.ancestorsOf pageA cyclic = Some ancestors
      ∧ NoDup ancestors.*1
      ∧ ∃ info, cyclic !! "b" = Some info ∧ "B/" = Spec.folderSegment info.
Proof.
  split; [by vm_compute|].
  destruct (assembleParentIds_ends_without_repeating pageA cyclic)
    as (ancestors & Hwalk & _ & Hnodup & _ & _ & Hsegments & _).
  exists ancestors. split; [done|]. split; [done|].
  apply Hsegments.
  assert (Hvalue : Spec.ancestorsOf pageA cyclic = Some [("b", "B/")])
    by (by vm_compute).
  rewrite Hvalue in Hwalk. injection Hwalk as <-. by left.
Defined.



(** C5 on the page "Child" of the export. *)
Lemma document_path_is_folder_segments_title_md_witness :
  ∃ folder file id fileInfo,
    getOutputFolder host emptyVault = Some folder
    ∧ file ∈ entriesOf [export]
    ∧ extension file = "html"
    ∧ getNotionId host (name file) = Some id
    ∧ let plan := planOf host (importer [export]) folder emptyVault in
      let root := normalizePath host (folder_path folder) in
      idsToFileInfo (planned plan) !! id = Some fileInfo
      ∧ targetFolderPath plan
        = (if endsWith root "/" then root else root +:+ "/")
      ∧ endsWith (targetFolderPath plan) "/" = true
      ∧ "Notion/Root/Child.md"
        = targetFolderPath plan
          +:+ join (assembleParentIds host fileInfo
                      (idsToFileInfo (planned plan)))
          +:+ title fileInfo +:+ ".md".
Proof.
  apply (document_path_is_folder_segments_title_md host (importer [export])
           emptyVault "Notion/Root/Child.md" "Child").
  rewrite import_of_the_export. cbn [events]. do 10 right. left.
Defined.


(** The four causes of a failure in pass 2: no id in the name of a page, no
    file info for the id, no attachment info for the path, and a write that
    the vault refuses.  Each is reported once, with its cause. *)
Example pass2_failures_of_every_kind :
  let plan := planOf host (importer [export]) notion emptyVault in
  events (pass2Callback host plan untitledPage 0 emptyVault)
  = [EReportProgress 1 3;
     EReportFailed "Untitled.html" "ids not found for Untitled.html"]
  ∧ events (pass2Callback host plan brokenPage 0 emptyVault)
    = [EReportProgress 1 3;
       EReportFailed (filepath brokenPage)
         ("file info not found for " +:+ filepath brokenPage)]
  ∧ events (pass2Callback host plan table 0 emptyVault)
    = [EReportProgress 1 3;
       EReportFailed (filepath table)
         ("attachment info not found for " +:+ filepath table)]
  ∧ events (pass2Callback host plan rootPage 0
              (addFile "Notion/Root.md" emptyVault))
    = [EReportProgress 1 3;
       EReadToMarkdown (filepath rootPage);
       EVaultCreate "Notion/Root.md" "Root";
       EReportFailed (filepath rootPage) "File already exists."].
Proof. by vm_compute. Qed.



(** C8 on the export: the database is skipped, the picture, in whose path
    there is no id, is passed on. *)
Lemma processZips_skips_exactly_database_csv_witness :
  isDatabaseCSV host (filepath table) = true
  ∧ result (processZips host [export] remember [] emptyVault)
    = result (forEach (filter (passedOn host) (entriesOf [export])) remember
                [] emptyVault)
  ∧ (∃ seen,
       result (processZips host [export] remember [] emptyVault) = Ok seen
       ∧ (table ∈ seen ↔
          table ∈ entriesOf [export]
          ∧ ¬ (endsWith (filepath table) ".csv" = true
               ∧ is_Some (getNotionId host (filepath table)))))
  ∧ (∃ seen,
       result (processZips host [export] remember [] emptyVault) = Ok seen
       ∧ picture ∈ seen)
  ∧ filter (λ e, isReadZip e = false)
      (events (pass2 host (importer [export])
                 (planOf host (importer [export]) notion emptyVault)
                 emptyVault))
    = events (forEach (filter (passedOn host) (entriesOf [export]))
                (pass2Callback host
                   (planOf host (importer [export]) notion emptyVault))
                0 emptyVault).
Proof.
  destruct (processZips_skips_exactly_database_csv host)
    as (Hcsv & _ & Hloop & Hseen & Hpicture & Hpasses).
  assert (Hread : readable [export]) by (by repeat constructor).
  split; [apply Hcsv; split; [by vm_compute|by eexists]|].
  split.
  { destruct (Hloop _ [export] remember [] emptyVault Hread) as [Hres _].
    exact Hres. }
  split.
  { destruct (Hseen [export] emptyVault Hread) as (seen & Hres & Hiff).
    exists seen. split; [exact Hres|apply Hiff]. }
  split.
  { apply Hpicture; [exact Hread| |by vm_compute].
    vm_compute. do 2 right. left. }
  destruct (Hpasses (importer [export]) ""
              (planOf host (importer [export]) notion emptyVault) emptyVault
              Hread) as [_ Hpass2].
  exact Hpass2.
Defined.


(** C10 on the export picked twice. *)
Lemma progress_counts_entries_against_scanned_keys_witness :
  filter (λ e, isReportProgress e = true)
    (events (import host (importer [export; exportAgain]) emptyVault))
  = (λ current,
       EReportProgress current
         (size (idsToFileInfo
                  (scanned host (importer [export; exportAgain]) emptyVault))
          + size (pathsToAttachmentInfo
                  (scanned host (importer [export; exportAgain])
                     emptyVault))))
    <$> seq 1 (length (filter (passedOn host)
                         (entriesOf [export; exportAgain]))).
Proof.
  destruct progress_counts_entries_against_scanned_keys as (_ & Hrun & _).
  apply (Hrun _ host (importer [export; exportAgain]) emptyVault notion);
    [done|done|by vm_compute].
Defined.
End Instances.

(** * Further properties of the code *)

(** ** The rule for encrypted notes *)

Section EncryptRuleFacts.
Implicit Types content s t u : string.

Lemma append_backtick_inj s t : s +:+ "`" = t +:+ "`" → s = t.
Proof.
  revert t. induction s as [|c s IH]; intros [|d t] Heq; try done.
  - destruct t; discriminate Heq.
  - destruct s; discriminate Heq.
  - injection Heq as -> Heq. f_equal. by apply IH.
Qed.

Lemma countBackticks_append s t :
  EncryptRule.countBackticks (s +:+ t)
  = EncryptRule.countBackticks s + EncryptRule.countBackticks t.
Proof.
  induction s as [|c s IH]; [done|].
  cbv [String.append]; fold String.append. simpl. rewrite IH. lia.
Qed.

Lemma substring_front s t : String.substring 0 (String.length s) (s +:+ t) = s.
Proof.
  induction s as [|c s IH]; [by destruct t|].
  cbv [String.append]; fold String.append. simpl. by f_equal.
Qed.

Lemma substring_middle s t u :
  String.substring (String.length s) (String.length t) (s +:+ t +:+ u) = t.
Proof.
  induction s as [|c s IH]; [exact (substring_front t u)|].
  cbv [String.append]; fold String.append. exact IH.
Qed.

(** The markdown written for an encrypted note is the secret between the
    marker and a closing backtick: the secret can be read back from it, two
    secrets never give the same markdown, and no backtick of the secret is
    escaped or removed. *)
Theorem encrypted_secret_can_be_read_back {N : Type} content (node : N) :
  String.substring 17 (String.length content)
    (EncryptRule.replacement content node) = content
  ∧ String.length (EncryptRule.replacement content node)
    = String.length content + 18
  ∧ (∀ content' (node' : N),
       EncryptRule.replacement content node
       = EncryptRule.replacement content' node' →
       content = content')
  ∧ EncryptRule.countBackticks (EncryptRule.replacement content node)
    = EncryptRule.countBackticks content + 2.
Proof.
  unfold EncryptRule.replacement. split; [|split; [|split]].
  - apply (substring_middle "`evernote_secret " content "`").
  - rewrite !length_append. simpl. lia.
  - intros content' node' Heq. apply (inj (String.append _)) in Heq.
    by apply append_backtick_inj.
  - rewrite !countBackticks_append. simpl. lia.
Qed.
End EncryptRuleFacts.

(** ** Database exports leave no trace *)

Section WithoutDatabaseCSV.
Context {V : Type} (host : Host V).
Implicit Types (v : V) (file : ZipEntryFile) (zipFile : PickedFile).
Implicit Types (imp : NotionImporter).

Lemma bind_ext {A B} (m m' : M V A) (k k' : A → M V B) v :
  m v = m' v →
  (∀ a v', k a v' = k' a v') →
  (m ≫= k) v = (m' ≫= k') v.
Proof.
  intros Hm Hk. unfold mbind, M_bind, bind. rewrite Hm.
  destruct (result (m' v)); [|done]. by rewrite Hk.
Qed.

Lemma processZip_without {S} zipFile
    (callback : ZipEntryFile → S → M V S) s v :
  processZip host (withoutDatabaseCSV host zipFile) callback s v
  = processZip host zipFile callback s v.
Proof.
  destruct (readZip zipFile) as [entries|e] eqn:Hread.
  - rewrite (processZip_ok host (withoutDatabaseCSV host zipFile) _ _ _
               (filter (passedOn host) entries))
      by (simpl; by rewrite Hread).
    rewrite (processZip_ok host zipFile _ _ _ entries) by done.
    cbn zeta. rewrite !processEntries_filter.
    rewrite list_filter_filter.
    by rewrite (list_filter_iff _ (passedOn host)) by naive_solver.
  - rewrite (processZip_throw host (withoutDatabaseCSV host zipFile) _ _ _ e)
      by (simpl; by rewrite Hread).
    by rewrite (processZip_throw host zipFile _ _ _ e).
Qed.

Lemma processZips_without {S} files
    (callback : ZipEntryFile → S → M V S) s v :
  processZips host (withoutDatabaseCSV host <$> files) callback s v
  = processZips host files callback s v.
Proof.
  revert s v. induction files as [|zipFile files IH]; intros s v; [done|].
  rewrite fmap_cons, !processZips_cons.
  apply bind_ext; [apply processZip_without|done].
Qed.

(** A database export is as good as absent: the run on the picked files is,
    call for call and in its result and its effect on the vault, the run on
    the same files with every database export taken out. *)
Theorem import_ignores_database_exports imp v :
  import host (withoutDatabaseCSVs host imp) v = import host imp v.
Proof.
  unfold import. cbn [files withoutDatabaseCSVs]. rewrite length_fmap.
  destruct (length (files imp) =? 0); [done|].
  apply bind_ext; [done|]. intros v0 v1.
  destruct (getOutputFolder host v0) as [folder|]; [|done].
  apply bind_ext.
  - unfold pass1. cbn [files parentsInSubfolders withoutDatabaseCSVs].
    apply bind_ext; [done|]. intros v2 v3.
    apply bind_ext; [apply processZips_without|done].
  - intros plan v2. apply bind_ext; [done|]. intros _ v3.
    unfold pass2. cbn [files withoutDatabaseCSVs].
    apply bind_ext; [apply processZips_without|done].
Qed.
End WithoutDatabaseCSV.

(** ** Zip files and folders *)

Section ZipsAndFolders.
Context {V : Type} (host : Host V).
Implicit Types (v : V) (file : ZipEntryFile) (zipFile : PickedFile).
Implicit Types (imp : NotionImporter) (trace : list Event).






Lemma pass1_processZips_events imp folder v :
  events (pass1 host imp folder v)
  = events (processZips host (files imp)
              (pass1Callback host (attachmentFolderPathOf host v)) noMaps v).
Proof.
  unfold pass1, attachmentFolderPathOf. run_unfold.
  destruct (processZips host (files imp) _ noMaps v) as [[maps|e] ev v'];
    run_unfold; by rewrite ?app_nil_r.
Qed.

Lemma pass2_processZips_events imp plan v :
  events (pass2 host imp plan v)
  = events (processZips host (files imp) (pass2Callback host plan) 0 v).
Proof.
  unfold pass2. run_unfold.
  destruct (processZips host (files imp) _ 0 v) as [[n|e] ev v'];
    run_unfold; by rewrite ?app_nil_r.
Qed.




(** If one of the picked files cannot be opened, be it the last, the run
    ends in pass 1 with the exception of that file: the vault is as it was,
    no folder has been created, and nothing of the files that could be
    opened has been written. *)
Theorem unreadable_zip_leaves_the_vault_untouched imp v folder :
  files imp ≠ [] →
  getOutputFolder host v = Some folder →
  ¬ readable (files imp) →
  vault (import host imp v) = v
  ∧ isOk (result (import host imp v)) = false
  ∧ createdFolders (events (import host imp v)) = []
  ∧ Forall (λ e, isWrite e = false) (events (import host imp v)).
Proof.
  intros Hfiles Hfolder Hread.
  destruct (import_unreadable host imp v folder Hfiles Hfolder Hread)
    as (zipFile & e & trace & _ & _ & Hres & _ & Hscan).
  split; [|split; [by rewrite Hres|split]].
  - rewrite (import_started host imp v folder) by done.
    destruct (pass1_unreadable host imp folder v Hread)
      as (z & e' & trace' & _ & _ & Hres' & _).
    rewrite (bind_throw _ _ _ e') by done. cbn [vault]. apply pass1_vault.
  - apply createdFolders_none. eapply Forall_impl; [done|].
    intros e1 He1. by apply scan_event_kinds in He1 as (_ & ? & _).
  - eapply Forall_impl; [done|].
    intros e1 He1. by apply scan_event_kinds in He1 as (? & _).
Qed.


End ZipsAndFolders.

(** ** What is reported *)

Section ReportsOfARun.
Context {V : Type} (host : Host V).
Implicit Types (v : V) (file : ZipEntryFile) (plan : Plan).
Implicit Types (imp : NotionImporter) (trace : list Event).

Lemma omap_none {A B} (f : A → option B) (l : list A) :
  Forall (λ x, f x = None) l → omap f l = [].
Proof.
  induction 1 as [|x l Hx _ IH]; [done|].
  change (omap f (x :: l))
    with (match f x with Some y => y :: omap f l | None => omap f l end).
  by rewrite Hx.
Qed.





End ReportsOfARun.

(** ** Properties of a trace that are kept by concatenation *)

Section TraceInduction.
Context {V : Type} (host : Host V).
Context (Q : list Event → Prop).
Context (Q_nil : Q []) (Q_app : ∀ l1 l2, Q l1 → Q l2 → Q (l1 ++ l2)).
Implicit Types (v : V) (imp : NotionImporter).

Lemma bind_trace {A B} (m : M V A) (k : A → M V B) v :
  Q (events (m v)) → (∀ a v', Q (events (k a v'))) →
  Q (events ((m ≫= k) v)).
Proof using Q_app.
  intros Hm Hk. unfold mbind, M_bind, bind.
  destruct (m v) as [[a|e] ev v']; cbn [result events] in *; [|done].
  by apply Q_app.
Qed.

Lemma forEach_trace {A S} (xs : list A) (body : A → S → M V S) s v :
  (∀ x s v, Q (events (body x s v))) → Q (events (forEach xs body s v)).
Proof using Q_nil Q_app.
  intros Hbody. revert s v. induction xs as [|x xs IH]; intros s v; [done|].
  rewrite forEach_cons. by apply bind_trace.
Qed.

Lemma processZips_trace {S} files (callback : ZipEntryFile → S → M V S) s v :
  (∀ zip, Q [EReadZip zip]) →
  (∀ file s v, Q (events (callback file s v))) →
  Q (events (processZips host files callback s v)).
Proof using Q_nil Q_app.
  intros Hzip Hcallback. revert s v.
  induction files as [|zipFile files IH]; intros s v; [done|].
  rewrite processZips_cons. apply bind_trace; [|done].
  destruct (readZip zipFile) as [entries|e] eqn:Hread.
  - rewrite (processZip_ok host _ _ _ _ entries) by done. cbn zeta.
    cbn [events]. rewrite processEntries_filter.
    apply (Q_app [_]); [done|]. by apply forEach_trace.
  - rewrite (processZip_throw host _ _ _ _ e) by done. apply Hzip.
Qed.

(** A property of traces that holds of the empty trace, of the trace of
    every single step of [import], and of the concatenation of two traces
    of which it holds, holds of the trace of every run. *)
Lemma import_trace_ind imp v :
  (∀ text, Q [ENotice text]) →
  (∀ zip, Q [EReadZip zip]) →
  (∀ path, Q [EReportSkipped path]) →
  (∀ path, Q [ECreateFolders path]) →
  (∀ plan file current v,
     Q (events (pass2Callback host plan file current v))) →
  Q (events (import host imp v)).
Proof using Q_nil Q_app.
  intros Hnotice Hzip Hskipped Hfolders Hentry.
  destruct (decide (files imp = [])) as [Hfiles|Hfiles].
  { rewrite import_no_files by done. apply Hnotice. }
  destruct (getOutputFolder host v) as [folder|] eqn:Hfolder; cycle 1.
  { rewrite import_no_folder by done. apply Hnotice. }
  rewrite (import_started host imp v folder) by done.
  apply bind_trace.
  { rewrite pass1_processZips_events. apply processZips_trace; [done|].
    intros file maps v'. rewrite pass1Callback_run. cbn zeta. cbn [events].
    by destruct (parseFileInfo host file maps _).2. }
  intros plan v1. apply bind_trace.
  { destruct (createAllFolders_run host plan v1) as (created & -> & _).
    induction created as [|path created IH]; [done|].
    by apply (Q_app [_]). }
  intros _ v2. rewrite pass2_processZips_events.
  by apply processZips_trace.
Qed.
End TraceInduction.

(** ** The order of the calls *)

Section OrderOfCalls.
Context {V : Type} (host : Host V).
Implicit Types (v : V) (file : ZipEntryFile) (plan : Plan).
Implicit Types (imp : NotionImporter) (trace : list Event).
Implicit Types (R : Event → Event → bool) (P : Event → bool).

Lemma eachPrecededFrom_weaken R P previous trace :
  eachPreceded R P trace = true → eachPrecededFrom R P previous trace = true.
Proof.
  unfold eachPreceded. destruct trace as [|e trace]; [done|]. simpl.
  by destruct (P e).
Qed.

Lemma eachPrecededFrom_app R P previous trace trace' :
  eachPrecededFrom R P previous trace = true →
  eachPreceded R P trace' = true →
  eachPrecededFrom R P previous (trace ++ trace') = true.
Proof.
  intros Htrace Htrace'. revert previous Htrace.
  induction trace as [|e trace IH]; intros previous Htrace.
  - by apply eachPrecededFrom_weaken.
  - simpl in *. apply andb_true_iff in Htrace as [-> Htrace]. by apply IH.
Qed.

Lemma eachPrecededFrom_sound R P previous before e after :
  eachPrecededFrom R P previous (before ++ e :: after) = true →
  P e = true →
  from_option (R e) false (from_option Some previous (last before)) = true.
Proof.
  revert previous. induction before as [|b before IH]; intros previous Hall He.
  - simpl in *. rewrite He in Hall. by apply andb_true_iff in Hall as [? _].
  - simpl in Hall. apply andb_true_iff in Hall as [_ Hall].
    specialize (IH (Some b) Hall He).
    destruct before as [|b' before]; [done|].
    rewrite last_cons_cons.
    destruct (last (b' :: before)) eqn:Hlast; [done|].
    by apply last_None in Hlast.
Qed.

Lemma eachPreceded_sound R P before e after :
  eachPreceded R P (before ++ e :: after) = true →
  P e = true →
  ∃ before' w, before = before' ++ [w] ∧ R e w = true.
Proof.
  intros Hall He.
  pose proof (eachPrecededFrom_sound R P None before e after Hall He) as Hw.
  destruct (last before) as [w|] eqn:Hlast; [|done].
  apply last_Some in Hlast as (before' & ->). by exists before', w.
Qed.

Lemma eachFollowed_app R P trace trace' :
  eachFollowed R P trace = true →
  eachFollowed R P trace' = true →
  eachFollowed R P (trace ++ trace') = true.
Proof.
  intros Htrace Htrace'. induction trace as [|e trace IH]; [done|].
  simpl in *. apply andb_true_iff in Htrace as [He Htrace].
  rewrite IH by done. rewrite andb_true_r.
  destruct (P e); [|done]. by destruct trace.
Qed.

Lemma eachFollowed_sound R P before e after :
  eachFollowed R P (before ++ e :: after) = true →
  P e = true →
  ∃ next rest, after = next :: rest ∧ R next e = true.
Proof.
  induction before as [|b before IH]; intros Hall He.
  - simpl in Hall. rewrite He in Hall.
    apply andb_true_iff in Hall as [Hnext _].
    destruct after as [|next rest]; [done|]. by exists next, rest.
  - simpl in Hall. apply andb_true_iff in Hall as [_ Hall]. by apply IH.
Qed.

Lemma pass2Callback_preceded plan file current v :
  eachPreceded comesAfter (λ e, isWrite e || isSuccess e)
    (events (pass2Callback host plan file current v)) = true.
Proof.
  rewrite pass2Callback_run. cbn zeta. cbn [events].
  unfold writeEntry. by run_cases.
Qed.

Lemma pass2Callback_followed plan file current v :
  eachFollowed answers isWrite
    (events (pass2Callback host plan file current v)) = true.
Proof.
  rewrite pass2Callback_run. cbn zeta. cbn [events].
  unfold writeEntry. by run_cases.
Qed.

(** Nothing is written unread and nothing is reported that was not
    written: in every run, a document is created right after its entry has
    been converted, front matter is written right after the document has
    been created, an attachment is written right after its entry has been
    read, and a success is reported right after the last write for the
    entry. *)
Theorem writes_follow_reads_and_successes_follow_writes
    imp v before e after :
  events (import host imp v) = before ++ e :: after →
  isWrite e = true ∨ isSuccess e = true →
  ∃ before' w, before = before' ++ [w] ∧ comesAfter e w = true.
Proof.
  intros Htrace He.
  apply (eachPreceded_sound comesAfter (λ e, isWrite e || isSuccess e)
           before e after); [|by apply orb_true_iff].
  rewrite <- Htrace.
  apply (import_trace_ind host
           (λ trace, eachPreceded comesAfter (λ e, isWrite e || isSuccess e)
                       trace = true)); try done.
  - intros l1 l2. apply eachPrecededFrom_app.
  - apply pass2Callback_preceded.
Qed.

(** No write goes unanswered: in every run, a write into the vault is
    followed at once by the next write for the same entry, by the report
    of a success, or by the report of a failure; a run does not end, and
    does not turn to another entry, on a write. *)
Theorem every_write_is_answered_at_once imp v before w after :
  events (import host imp v) = before ++ w :: after →
  isWrite w = true →
  ∃ next rest, after = next :: rest ∧ answers next w = true.
Proof.
  intros Htrace Hw.
  apply (eachFollowed_sound answers isWrite before w after); [|done].
  rewrite <- Htrace.
  apply (import_trace_ind host
           (λ trace, eachFollowed answers isWrite trace = true)); try done.
  - intros l1 l2. apply eachFollowed_app.
  - apply pass2Callback_followed.
Qed.
End OrderOfCalls.

(** ** What pass 1 reports *)

Section SkippedEntries.
Context {V : Type} (host : Host V).
Implicit Types (v : V) (file : ZipEntryFile) (maps : Maps).
Implicit Types (imp : NotionImporter) (trace : list Event).

Lemma skippedPaths_app trace trace' :
  skippedPaths (trace ++ trace') = skippedPaths trace ++ skippedPaths trace'.
Proof. apply omap_app. Qed.

Lemma skippedPaths_none trace :
  Forall (λ e, isCreateFolders e = true ∨ isReadZip e = true
               ∨ isEntryEvent e = true) trace →
  skippedPaths trace = [].
Proof.
  intros Hall. apply omap_none. eapply Forall_impl; [done|].
  intros e He. destruct e; naive_solver.
Qed.

Lemma skippedBy_app attachmentFolderPath entries entries' maps :
  skippedBy host attachmentFolderPath (entries ++ entries') maps
  = skippedBy host attachmentFolderPath entries maps
    ++ skippedBy host attachmentFolderPath entries'
         (foldl (λ maps file,
                   (parseFileInfo host file maps attachmentFolderPath).1)
            maps entries).
Proof.
  revert maps. induction entries as [|file entries IH]; intros maps; [done|].
  cbn [app skippedBy foldl]. cbn zeta. by rewrite IH, app_assoc.
Qed.

Lemma skippedBy_sublist attachmentFolderPath entries maps :
  skippedBy host attachmentFolderPath entries maps
    `sublist_of` filepath <$> entries.
Proof.
  revert maps. induction entries as [|file entries IH]; intros maps; [done|].
  cbn [skippedBy]. cbn zeta. rewrite fmap_cons.
  destruct (isOk _); cbn [app].
  - apply sublist_cons, IH.
  - apply sublist_skip, IH.
Qed.

Lemma forEach_pass1_skipped attachmentFolderPath entries maps v :
  skippedPaths
    (events (forEach entries (pass1Callback host attachmentFolderPath)
               maps v))
  = skippedBy host attachmentFolderPath entries maps.
Proof.
  revert maps v. induction entries as [|file entries IH]; intros maps v;
    [done|].
  rewrite forEach_cons. unfold mbind, M_bind, bind.
  rewrite pass1Callback_run. cbn zeta. cbn [result events vault skippedBy].
  rewrite skippedPaths_app, IH. f_equal.
  by destruct (parseFileInfo host file maps attachmentFolderPath).2.
Qed.

Lemma entriesOf_cons zipFile files :
  entriesOf (zipFile :: files)
  = match readZip zipFile with Ok entries => entries | Throw _ => [] end
    ++ entriesOf files.
Proof. reflexivity. Qed.

Lemma processZips_pass1_skipped attachmentFolderPath files maps v :
  skippedPaths
    (events (processZips host files (pass1Callback host attachmentFolderPath)
               maps v))
  = skippedBy host attachmentFolderPath
      (filter (passedOn host) (entriesOf (upToUnreadable files))) maps.
Proof.
  revert maps v. induction files as [|zipFile files IH]; intros maps v;
    [done|].
  rewrite processZips_cons. unfold mbind, M_bind, bind.
  cbn [upToUnreadable].
  destruct (readZip zipFile) as [entries|e] eqn:Hread; cbn [isOk].
  - rewrite entriesOf_cons, Hread, filter_app, skippedBy_app.
    rewrite (processZip_ok host _ _ _ _ entries) by done. cbn zeta.
    cbn [result events vault]. rewrite processEntries_filter.
    pose proof (forEach_pass1 host attachmentFolderPath
                  (filter (passedOn host) entries) maps v) as Hres.
    pose proof (forEach_pass1_skipped attachmentFolderPath
                  (filter (passedOn host) entries) maps v) as Hskipped.
    destruct (forEach (filter (passedOn host) entries) _ maps v)
      as [[maps'|e] ev v']; [|done]. cbn [result events vault] in *.
    injection Hres as ->.
    change (EReadZip (zipName zipFile) :: ev)
      with ([EReadZip (zipName zipFile)] ++ ev).
    by rewrite !skippedPaths_app, IH, Hskipped.
  - rewrite (processZip_throw host _ _ _ _ e) by done.
    by rewrite entriesOf_cons, Hread.
Qed.

Lemma import_after_pass1 imp v folder :
  files imp ≠ [] →
  getOutputFolder host v = Some folder →
  ∃ rest,
    events (import host imp v) = events (pass1 host imp folder v) ++ rest
    ∧ Forall (λ e, isCreateFolders e = true ∨ isReadZip e = true
                   ∨ isEntryEvent e = true) rest.
Proof.
  intros Hfiles Hfolder.
  destruct (decide (readable (files imp))) as [Hread|Hread].
  - destruct (createAllFolders_run host (planOf host imp folder v) v)
      as (created & Hcreated & _).
    assert (Hfolders : Forall (λ e, isCreateFolders e = true
                                    ∨ isReadZip e = true
                                    ∨ isEntryEvent e = true)
                         (ECreateFolders <$> created)).
    { apply Forall_fmap, Forall_true. by left. }
    destruct (result (createAllFolders host (planOf host imp folder v) v))
      as [[]|e] eqn:Hres.
    + pose proof (import_complete host imp v folder Hfiles Hfolder Hread)
        as Hc. cbn zeta in Hc. rewrite Hres in Hc.
      destruct (Hc eq_refl) as [_ ->]. eexists. split; [done|].
      apply Forall_app. split.
      * apply Forall_fmap, Forall_true. by left.
      * destruct (pass2_run host imp (planOf host imp folder v)
                    (vault (createAllFolders host
                              (planOf host imp folder v) v)) Hread)
          as (_ & Hall & _).
        eapply Forall_impl; [done|]. naive_solver.
    + destruct (import_folders_throw host imp v folder e) as [_ ->];
        [done..|].
      eexists. split; [done|]. by rewrite Hcreated.
  - rewrite (import_started host imp v folder) by done.
    destruct (pass1_unreadable host imp folder v Hread)
      as (zipFile & e & trace & _ & _ & Hres & _).
    rewrite (bind_throw _ _ _ e) by done. cbn [events].
    exists []. by rewrite app_nil_r.
Qed.

(** In a run that gets past the two checks, the entries reported as
    skipped are exactly those on which [parseFileInfo] throws, each once, in
    the order of the archives; an entry that is skipped does not end the
    scan, and what [parseFileInfo] has put into the maps before it threw
    stays there for the entries after it.  Only entries that are passed on,
    of files up to the first that cannot be opened, are reported, and pass 2
    reports none as skipped. *)
Theorem skipped_entries_are_those_that_fail_to_parse imp v folder :
  files imp ≠ [] →
  getOutputFolder host v = Some folder →
  let scannedEntries :=
    filter (passedOn host) (entriesOf (upToUnreadable (files imp))) in
  skippedPaths (events (import host imp v))
  = skippedBy host (attachmentFolderPathOf host v) scannedEntries noMaps
  ∧ skippedPaths (events (import host imp v))
      `sublist_of` filepath <$> scannedEntries.
Proof.
  intros Hfiles Hfolder scannedEntries.
  assert (Heq : skippedPaths (events (import host imp v))
    = skippedBy host (attachmentFolderPathOf host v) scannedEntries noMaps).
  { destruct (import_after_pass1 imp v folder Hfiles Hfolder)
      as (rest & -> & Hrest).
    rewrite skippedPaths_app, (skippedPaths_none rest) by done.
    rewrite app_nil_r, pass1_processZips_events.
    apply processZips_pass1_skipped. }
  split; [done|]. rewrite Heq. apply skippedBy_sublist.
Qed.
End SkippedEntries.

(** ** What is written *)

Section Written.
Context {V : Type} (host : Host V).
Implicit Types (v : V) (file : ZipEntryFile) (plan : Plan).
Implicit Types (imp : NotionImporter) (trace : list Event).

(** Every call made for a document or an attachment is made in the work on
    an entry that is passed on. *)
Lemma import_call_origin imp v e :
  e ∈ events (import host imp v) →
  isDocumentCall e = true ∨ isAttachmentCall e = true →
  ∃ folder file v',
    getOutputFolder host v = Some folder
    ∧ file ∈ entriesOf (files imp) ∧ passedOn host file
    ∧ e ∈ events (writeEntry host (planOf host imp folder v) file v').
Proof.
  intros Hin He.
  destruct (decide (files imp = [])) as [Hfiles|Hfiles].
  { rewrite import_no_files in Hin by done.
    apply list_elem_of_singleton in Hin as ->. by destruct He. }
  destruct (getOutputFolder host v) as [folder|] eqn:Hfolder; cycle 1.
  { rewrite import_no_folder in Hin by done.
    apply list_elem_of_singleton in Hin as ->. by destruct He. }
  exists folder.
  destruct (import_trace host imp v folder Hfiles Hfolder)
    as (scan & created & entryEvents & Htrace & Hscan & _ & _ & Hbegun).
  rewrite Htrace in Hin.
  apply elem_of_app in Hin as [Hin|Hin].
  { rewrite Forall_forall in Hscan. apply Hscan in Hin.
    destruct e; by destruct He. }
  apply elem_of_app in Hin as [Hin|Hin].
  { apply list_elem_of_fmap in Hin as (p & -> & _). by destruct He. }
  assert (HentryEvents : entryEvents ≠ []) by (by intros ->; inversion Hin).
  destruct (Hbegun (or_introl HentryEvents)) as (_ & _ & _ & -> & _).
  rewrite pass2_processZips_events in Hin.
  apply processZips_event_origin in Hin
    as [(z & _ & ->)|(file & current & v' & Hfile & Hpassed & Hin)];
    [by destruct He|].
  exists file, v'. split; [done|]. split; [done|]. split; [done|].
  rewrite pass2Callback_run in Hin. cbn zeta in Hin. cbn [events] in Hin.
  apply elem_of_cons in Hin as [->|Hin]; [by destruct He|].
  apply elem_of_app in Hin as [Hin|Hin]; [done|].
  destruct (result (writeEntry host _ file v')).
  - by apply elem_of_nil in Hin.
  - apply list_elem_of_singleton in Hin as ->. by destruct He.
Qed.


(** What the work on an entry with extension "html" does once its document
    is found. *)
Lemma writeEntry_html_written plan file v id fileInfo e :
  extension file = "html" →
  getNotionId host (name file) = Some id →
  idsToFileInfo (planned plan) !! id = Some fileInfo →
  e ∈ events (writeEntry host plan file v) →
  isWrite e = true →
  ∃ markdownBody properties,
    readToMarkdown host file (attachmentPaths plan) (planned plan)
    = Ok (markdownBody, properties)
    ∧ (e = EVaultCreate (documentPath host plan fileInfo) markdownBody
       ∨ ∃ newFile,
           (vault_create host (documentPath host plan fileInfo)
              markdownBody v).1 = Ok newFile
           ∧ properties ≠ []
           ∧ e = EProcessFrontMatter (file_path newFile) properties).
Proof.
  intros Hext Hid Hinfo. unfold writeEntry. rewrite Hext, Hid, Hinfo. simpl.
  run_unfold.
  destruct (readToMarkdown host file _ _) as [[body properties]|err];
    run_unfold; [|by intros [->|?%elem_of_nil]%elem_of_cons].
  intros Hin Hwrite. exists body, properties. split; [done|].
  destruct (vault_create host _ body v) as [[newFile|err] v1] eqn:Hcreate;
    run_unfold.
  - destruct properties as [|property properties]; simpl in Hin; run_unfold.
    + cbn [app] in Hin. rewrite ?elem_of_cons, ?elem_of_nil in Hin.
      destruct_or?; simplify_eq; first [done|by left].
    + destruct (processFrontMatter host newFile _ v1) as [[[]|err] v2];
        run_unfold; cbn [app] in Hin;
        rewrite ?elem_of_cons, ?elem_of_nil in Hin;
        destruct_or?; simplify_eq;
        first [done|by left|right; by exists newFile].
  - cbn [app] in Hin. rewrite ?elem_of_cons, ?elem_of_nil in Hin.
    destruct_or?; simplify_eq; first [done|by left].
Qed.

(** The content of every document created in a run is the markdown body
    that [readToMarkdown] returned for its entry, when given the file paths
    of all attachments that are kept and the two maps as
    [cleanDuplicates] has left them. *)
Theorem document_body_is_the_conversion_of_its_entry imp v path body :
  EVaultCreate path body ∈ events (import host imp v) →
  ∃ folder file properties,
    getOutputFolder host v = Some folder
    ∧ file ∈ entriesOf (files imp)
    ∧ isDatabaseCSV host (filepath file) = false
    ∧ extension file = "html"
    ∧ let maps := planned (planOf host imp folder v) in
      readToMarkdown host file (map_to_list (pathsToAttachmentInfo maps)).*1
        maps
      = Ok (body, properties).
Proof.
  intros Hin.
  apply import_call_origin in Hin
    as (folder & file & v' & Hfolder & Hfile & Hpassed & Hin); [|by left].
  exists folder, file.
  pose proof Hin as Hcreates.
  apply writeEntry_creates in Hcreates
    as (Hext & id & fileInfo & Hid & Hinfo & _).
  destruct (writeEntry_html_written _ _ _ _ _ _ Hext Hid Hinfo Hin eq_refl)
    as (body' & properties & Hread & [Hevent|(? & _ & _ & ?)]); [|done].
  injection Hevent as _ <-. by exists properties.
Qed.

(** Front matter is written only for a document that has properties: every
    call of [processFrontMatter] in a run is made for an entry with
    extension "html", with the properties that [readToMarkdown] returned
    for it, of which there is at least one, and on the file that
    [vault.create] returned for the document of the entry. *)
Theorem front_matter_is_written_for_properties_only imp v path properties :
  EProcessFrontMatter path properties ∈ events (import host imp v) →
  properties ≠ []
  ∧ ∃ folder file id fileInfo markdownBody newFile v',
      getOutputFolder host v = Some folder
      ∧ file ∈ entriesOf (files imp)
      ∧ extension file = "html"
      ∧ getNotionId host (name file) = Some id
      ∧ let plan := planOf host imp folder v in
        idsToFileInfo (planned plan) !! id = Some fileInfo
        ∧ readToMarkdown host file (attachmentPaths plan) (planned plan)
          = Ok (markdownBody, properties)
        ∧ (vault_create host (documentPath host plan fileInfo)
             markdownBody v').1 = Ok newFile
        ∧ path = file_path newFile.
Proof.
  intros Hin.
  apply import_call_origin in Hin
    as (folder & file & v' & Hfolder & Hfile & Hpassed & Hin); [|by left].
  destruct (decide (extension file = "html")) as [Hext|Hext]; cycle 1.
  { pose proof (writeEntry_other_calls host (planOf host imp folder v) file
                  v' Hext) as Hall.
    rewrite Forall_forall in Hall. by apply Hall in Hin. }
  destruct (getNotionId host (name file)) as [id|] eqn:Hid; cycle 1.
  { rewrite writeEntry_html_no_id in Hin by done.
    by apply elem_of_nil in Hin. }
  destruct (idsToFileInfo (planned (planOf host imp folder v)) !! id)
    as [fileInfo|] eqn:Hinfo; cycle 1.
  { rewrite (writeEntry_html_no_info host _ _ _ id) in Hin by done.
    by apply elem_of_nil in Hin. }
  destruct (writeEntry_html_written _ _ _ _ _ _ Hext Hid Hinfo Hin eq_refl)
    as (body & properties' & Hread
        & [?|(newFile & Hcreate & Hsome & Hevent)]); [done|].
  injection Hevent as -> ->. split; [done|].
  by exists folder, file, id, fileInfo, body, newFile, v'.
Qed.
End Written.

(** ** Zip files one after another *)

Section Batches.
Context {V : Type} (host : Host V).
Implicit Types (v : V) (file : ZipEntryFile) (zipFile : PickedFile).

Lemma bind_assoc {A B C} (m : M V A) (k : A → M V B) (h : B → M V C) v :
  ((m ≫= k) ≫= h) v = (m ≫= λ a, k a ≫= h) v.
Proof.
  unfold mbind, M_bind, bind.
  destruct (m v) as [[a|e] ev v1]; cbn [result events vault]; [|done].
  destruct (k a v1) as [[b|e] ev' v2]; cbn [result events vault]; [|done].
  by rewrite app_assoc.
Qed.

(** [processZips] on two batches of zip files is [processZips] on the
    first batch followed by [processZips] on the second, which starts from
    what the first has left; if the first batch ends with an exception, not
    one file of the second is opened. *)
Theorem processZips_goes_through_batches_in_turn {S} files files'
    (callback : ZipEntryFile → S → M V S) s v :
  processZips host (files ++ files') callback s v
  = (processZips host files callback s
     ≫= processZips host files' callback) v
  ∧ (isOk (result (processZips host files callback s v)) = false →
     processZips host (files ++ files') callback s v
     = processZips host files callback s v).
Proof.
  assert (Heq : ∀ s v,
    processZips host (files ++ files') callback s v
    = (processZips host files callback s
       ≫= processZips host files' callback) v).
  { clear s v. induction files as [|zipFile files IH]; intros s v.
    - change (processZips host [] callback s) with (ret (V := V) s).
      by rewrite bind_ret_l.
    - rewrite <- app_comm_cons, processZips_cons.
      change (processZips host (zipFile :: files) callback s)
        with (processZip host zipFile callback s
              ≫= processZips host files callback).
      rewrite bind_assoc. by apply bind_ext. }
  split; [done|]. intros Hthrow. rewrite Heq.
  destruct (result (processZips host files callback s v)) as [s'|e] eqn:Hres;
    [done|].
  rewrite (bind_throw _ _ _ e) by done. rewrite <- Hres. apply outcome_eta.
Qed.
End Batches.

(** ** The properties at work on the archives of [Demo] *)

Section MoreInstances.
Import Demo.

(** An export of one page that has a property: the page is created, its
    front matter is written, and its success is reported. *)
Example import_of_a_page_with_a_property :
  import Tagged.host (importer [Tagged.onePage]) emptyVault
  = {| result := Ok tt;
       events :=
         [EReadZip "page.zip"; ECreateFolders "Notion/";
          EReadZip "page.zip"; EReportProgress 1 1;
          EReadToMarkdown (filepath rootPage);
          EVaultCreate "Notion/Root.md" "Root";
          EProcessFrontMatter "Notion/Root.md" [Tagged.tag];
          EReportNoteSuccess (filepath rootPage)];
       vault := addFile "Notion/Root.md" (addFolder "Notion/" emptyVault) |}.
Proof. by vm_compute. Qed.

Lemma encrypted_secret_can_be_read_back_witness :
  String.substring 17 6 (EncryptRule.replacement "secret" tt) = "secret"
  ∧ ∀ content' (node' : unit),
      EncryptRule.replacement "secret" tt
      = EncryptRule.replacement content' node' →
      "secret" = content'.
Proof.
  destruct (encrypted_secret_can_be_read_back "secret" tt)
    as (Hread & _ & Hinj & _).
  split; [exact Hread|exact Hinj].
Defined.


Lemma unreadable_zip_leaves_the_vault_untouched_witness :
  vault (import host (importer [export; notAZip]) emptyVault) = emptyVault
  ∧ createdFolders
      (events (import host (importer [export; notAZip]) emptyVault)) = [].
Proof.
  destruct (unreadable_zip_leaves_the_vault_untouched host
              (importer [export; notAZip]) emptyVault notion)
    as (Hvault & _ & Hcreated & _); [done|done| |by split].
  intros Hread. apply Forall_cons in Hread as [_ Hread].
  apply Forall_cons in Hread as [Hread _]. discriminate Hread.
Defined.



Lemma writes_follow_reads_and_successes_follow_writes_witness :
  ∃ before' w,
    [EReadZip "export.zip"; ECreateFolders "Notion/";
     ECreateFolders "Notion/Root/"; EReadZip "export.zip";
     EReportProgress 1 3; EReadToMarkdown (filepath rootPage);
     EVaultCreate "Notion/Root.md" "Root"] = before' ++ [w]
    ∧ comesAfter (EReportNoteSuccess (filepath rootPage)) w = true.
Proof.
  apply (writes_follow_reads_and_successes_follow_writes host
           (importer [export]) emptyVault _ _
           (drop 4 exportEntryCalls)); [|by right].
  by rewrite import_of_the_export.
Defined.

Lemma every_write_is_answered_at_once_witness :
  ∃ next rest,
    drop 11 exportEntryCalls = next :: rest
    ∧ answers next (EWriteBinary "Notion/picture.png" [Byte.x89; Byte.x50])
      = true.
Proof.
  apply (every_write_is_answered_at_once host (importer [export]) emptyVault
           ([EReadZip "export.zip"; ECreateFolders "Notion/";
             ECreateFolders "Notion/Root/"; EReadZip "export.zip"]
            ++ take 10 exportEntryCalls)); [|done].
  by rewrite import_of_the_export.
Defined.

Lemma skipped_entries_are_those_that_fail_to_parse_witness :
  skippedPaths (events (import host (importer [export]) emptyVault))
    `sublist_of`
    filepath <$> filter (passedOn host) (entriesOf (upToUnreadable [export])).
Proof.
  apply (skipped_entries_are_those_that_fail_to_parse host
           (importer [export]) emptyVault notion); done.
Defined.


Lemma document_body_is_the_conversion_of_its_entry_witness :
  ∃ folder file properties,
    getOutputFolder host emptyVault = Some folder
    ∧ file ∈ entriesOf [export]
    ∧ isDatabaseCSV host (filepath file) = false
    ∧ extension file = "html"
    ∧ let maps :=
        planned (planOf host (importer [export]) folder emptyVault) in
      readToMarkdown host file (map_to_list (pathsToAttachmentInfo maps)).*1
        maps
      = Ok ("Child", properties).
Proof.
  apply (document_body_is_the_conversion_of_its_entry host
           (importer [export]) emptyVault "Notion/Root/Child.md" "Child").
  rewrite import_of_the_export. cbn [events]. do 10 right. left.
Defined.

Lemma front_matter_is_written_for_properties_only_witness :
  [Tagged.tag] ≠ []
  ∧ ∃ folder file id fileInfo markdownBody newFile v',
      getOutputFolder Tagged.host emptyVault = Some folder
      ∧ file ∈ entriesOf [Tagged.onePage]
      ∧ extension file = "html"
      ∧ getNotionId Tagged.host (name file) = Some id
      ∧ let plan :=
          planOf Tagged.host (importer [Tagged.onePage]) folder emptyVault in
        idsToFileInfo (planned plan) !! id = Some fileInfo
        ∧ readToMarkdown Tagged.host file (attachmentPaths plan)
            (planned plan)
          = Ok (markdownBody, [Tagged.tag])
        ∧ (vault_create Tagged.host (documentPath Tagged.host plan fileInfo)
             markdownBody v').1 = Ok newFile
        ∧ "Notion/Root.md" = file_path newFile.
Proof.
  apply (front_matter_is_written_for_properties_only Tagged.host
           (importer [Tagged.onePage]) emptyVault "Notion/Root.md"
           [Tagged.tag]).
  rewrite import_of_a_page_with_a_property. cbn [events]. do 6 right. left.
Defined.

Lemma processZips_goes_through_batches_in_turn_witness :
  processZips host ([notAZip] ++ [export]) remember [] emptyVault
  = processZips host [notAZip] remember [] emptyVault.
Proof.
  by apply (processZips_goes_through_batches_in_turn host [notAZip] [export]
              remember [] emptyVault).
Defined.
End MoreInstances.
